(** * roadstack101: the Author/Book catalog

    A shallow embedding of the Django application under
    [backend/core/books]: the two models of [models.py], the three
    serializers of [serializers.py], the two view sets of [viewsets.py]
    and the fixture loader of [management/commands/fetch_data.py].

    The repository is declarative: a model is a list of column
    declarations, a serializer a list of field names, a view set a list of
    search and ordering fields.  Each declaration is kept here as a
    definition of the same name, and the framework behaviour it selects
    (unique columns, cascading foreign keys, field-driven rendering,
    search over the declared fields) is written as a function of that
    declaration.

    A text is a [string] holding its UTF-8 encoding, a date the three
    numbers written in it, a primary key a [Z].  What the framework does
    to them on the way in belongs to the model: a text field is trimmed
    and measured in characters, a date is checked against the calendar, a
    key against the key space of the database, and a search parameter is
    split into its terms. *)

From Stdlib Require Import ZArith String Ascii List Sorted Permutation.
From stdpp Require Import base decidable option list gmap strings sorting.

Local Open Scope Z_scope.
Local Open Scope string_scope.

(** ** Text: case folding and substring search

    [icontains] is the lookup behind both view sets' search fields: the term
    occurs somewhere in the column, letters compared without case. *)

Definition lower_ascii (c : ascii) : ascii :=
  let n := N_of_ascii c in
  if (65 <=? n)%N && (n <=? 90)%N then ascii_of_N (n + 32) else c.

Fixpoint lower (s : string) : string :=
  match s with
  | EmptyString => EmptyString
  | String c s' => String (lower_ascii c) (lower s')
  end.

Fixpoint contains (needle hay : string) : bool :=
  String.prefix needle hay ||
  match hay with
  | EmptyString => false
  | String _ hay' => contains needle hay'
  end.

Definition icontains (value term : string) : bool :=
  contains (lower term) (lower value).

(** What it means for [value] to contain [term] case-insensitively, stated
    without reference to the search procedure. *)
Definition contains_ci (value term : string) : Prop :=
  ∃ pre post, lower value = pre ++ lower term ++ post.

(** ** Text: characters and whitespace

    A text is kept as its UTF-8 encoding.  [len(value)] counts characters:
    the bytes that do not continue a character.  [str.strip] and
    [str.split] go by [str.isspace], which holds of the characters U+0009
    to U+000D, U+001C to U+0020, U+0085, U+00A0, U+1680, U+2000 to U+200A,
    U+2028, U+2029, U+202F, U+205F and U+3000, encoded in one, two or
    three bytes. *)

Definition continuation (c : ascii) : bool :=
  let n := N_of_ascii c in (128 <=? n)%N && (n <=? 191)%N.

Fixpoint char_length (s : string) : nat :=
  match s with
  | EmptyString => 0%nat
  | String c s' => ((if continuation c then 0 else 1) + char_length s')%nat
  end.

Definition space1 (c : ascii) : bool :=
  let n := N_of_ascii c in
  ((9 <=? n)%N && (n <=? 13)%N) || ((28 <=? n)%N && (n <=? 32)%N).

Definition space2 (c1 c2 : ascii) : bool :=
  let n1 := N_of_ascii c1 in
  let n2 := N_of_ascii c2 in
  (n1 =? 194)%N && ((n2 =? 133)%N || (n2 =? 160)%N).

Definition space3 (c1 c2 c3 : ascii) : bool :=
  let n1 := N_of_ascii c1 in
  let n2 := N_of_ascii c2 in
  let n3 := N_of_ascii c3 in
  ((n1 =? 225)%N && (n2 =? 154)%N && (n3 =? 128)%N)
  || ((n1 =? 226)%N && (n2 =? 128)%N
      && (((128 <=? n3)%N && (n3 <=? 138)%N)
          || (n3 =? 168)%N || (n3 =? 169)%N || (n3 =? 175)%N))
  || ((n1 =? 226)%N && (n2 =? 129)%N && (n3 =? 159)%N)
  || ((n1 =? 227)%N && (n2 =? 128)%N && (n3 =? 128)%N).

(** The number of bytes of the whitespace character a text begins with,
    [0] when it begins with none. *)
Definition space_width (s : string) : nat :=
  match s with
  | String c1 s1 =>
      if space1 c1 then 1%nat else
      match s1 with
      | String c2 s2 =>
          if space2 c1 c2 then 2%nat else
          match s2 with
          | String c3 _ => if space3 c1 c2 c3 then 3%nat else 0%nat
          | EmptyString => 0%nat
          end
      | EmptyString => 0%nat
      end
  | EmptyString => 0%nat
  end.

Fixpoint drop_bytes (n : nat) (s : string) : string :=
  match n, s with
  | S n', String _ s' => drop_bytes n' s'
  | _, _ => s
  end.

(** [str.lstrip], [str.rstrip], [str.strip]; the recursion of [lstrip] is
    bounded by the length of the text. *)
Fixpoint lstrip_from (fuel : nat) (s : string) : string :=
  match fuel with
  | O => s
  | S fuel' =>
      match space_width s with
      | O => s
      | w => lstrip_from fuel' (drop_bytes w s)
      end
  end.

Definition lstrip (s : string) : string := lstrip_from (String.length s) s.

Definition all_space (s : string) : bool :=
  bool_decide (lstrip s = "").

Fixpoint rstrip (s : string) : string :=
  match s with
  | EmptyString => EmptyString
  | String c s' => if all_space s then EmptyString else String c (rstrip s')
  end.

Definition strip (s : string) : string := rstrip (lstrip s).

(** [str.split()]: the maximal runs of characters that are not
    whitespace.  [word] holds the run being read. *)
Definition emit (word : string) (rest : list string) : list string :=
  if decide (word = "") then rest else word :: rest.

Fixpoint split_from (fuel : nat) (s word : string) : list string :=
  match fuel with
  | O => emit word []
  | S fuel' =>
      match s with
      | EmptyString => emit word []
      | String c s' =>
          match space_width s with
          | O => split_from fuel' s' (word ++ String c "")
          | w => emit word (split_from fuel' (drop_bytes w s) "")
          end
      end
  end.

Definition split (s : string) : list string :=
  split_from (String.length s) s "".

(** [str.replace(old, new)] for a one-byte [old]. *)
Fixpoint replace (old : ascii) (new : string) (s : string) : string :=
  match s with
  | EmptyString => EmptyString
  | String c s' =>
      if decide (c = old) then new ++ replace old new s'
      else String c (replace old new s')
  end.

(** Text of printable ASCII characters, blank included: letters, digits
    and punctuation, no control character and nothing beyond one byte. *)
Definition printable (c : ascii) : bool :=
  let n := N_of_ascii c in (32 <=? n)%N && (n <=? 126)%N.

Definition plain (s : string) : Prop :=
  forallb printable (list_ascii_of_string s) = true.

(** ** models.py *)

Record date := Date { year : Z; month : Z; day : Z }.

Global Instance date_eq_dec : EqDecision date.
Proof. solve_decision. Defined.

(** The dates of the calendar, as [datetime.date] has them: years 1 to
    9999, and no 30th of February. *)
Definition leap_year (y : Z) : bool :=
  ((y mod 4 =? 0)%Z && negb (y mod 100 =? 0)%Z) || (y mod 400 =? 0)%Z.

Definition days_in_month (y m : Z) : Z :=
  if (m =? 2)%Z then (if leap_year y then 29 else 28)
  else if (m =? 4)%Z || (m =? 6)%Z || (m =? 9)%Z || (m =? 11)%Z then 30
  else 31.

Definition valid_date (d : date) : bool :=
  (1 <=? year d)%Z && (year d <=? 9999)%Z
  && (1 <=? month d)%Z && (month d <=? 12)%Z
  && (1 <=? day d)%Z && (day d <=? days_in_month (year d) (month d))%Z.

Module Author.
(** [class Author(models.Model)]: [name], [birth_date] (null allowed),
    [country] (blank allowed), and the implicit primary key [id]. *)
Record t := Make {
  id : Z;
  name : string;
  birth_date : option date;
  country : string
}.

Definition name_max_length : nat := 255.
Definition country_max_length : nat := 100.

(** [Meta.ordering = ['name']] *)
Definition ordering : list string := ["name"].
End Author.

(** [on_delete] options of a foreign key. *)
Inductive on_delete := CASCADE | PROTECT | DO_NOTHING.

Module Book.
(** [class Book(models.Model)]: [title], [author] (a foreign key stored
    in the column [author_id]), [published_date], [isbn], and the
    implicit primary key [id]. *)
Record t := Make {
  id : Z;
  title : string;
  author_id : Z;
  published_date : date;
  isbn : string
}.

Definition title_max_length : nat := 255.
Definition isbn_max_length : nat := 13.

(** [isbn = models.CharField(max_length=13, unique=True)] *)
Definition isbn_unique : bool := true.

(** [author = models.ForeignKey(Author, on_delete=models.CASCADE,
    related_name='books')] *)
Definition author_on_delete : on_delete := CASCADE.

(** [Meta.ordering = ['title']] *)
Definition ordering : list string := ["title"].
End Book.

Global Instance Author_eq_dec : EqDecision Author.t.
Proof. solve_decision. Defined.

Global Instance Book_eq_dec : EqDecision Book.t.
Proof. solve_decision. Defined.

(** ** The catalog store

    The two tables in row order, and for each the largest primary key ever
    handed out (an automatic key is never reused after a delete). *)

Record store := Store {
  authors : list Author.t;
  books : list Book.t;
  author_seq : Z;
  book_seq : Z
}.

Definition empty_store : store := Store [] [] 0 0.

Inductive exn :=
  | DoesNotExist
  | IntegrityError
  | ProtectedError
  | ValidationError
  | OverflowError
  | OperationalError
  | KeyError (key : string + Z).

(** A small state-and-exception monad: a statement runs on a store and
    leaves a store behind whether it returns or raises. *)
Definition M (A : Type) : Type := store → store * (exn + A).

Definition ret {A} (x : A) : M A := λ s, (s, inr x).
Definition raise {A} (e : exn) : M A := λ s, (s, inl e).
Definition bind {A B} (m : M A) (k : A → M B) : M B :=
  λ s, match m s with
       | (s', inl e) => (s', inl e)
       | (s', inr x) => k x s'
       end.

Declare Scope orm_scope.
Delimit Scope orm_scope with orm.
Notation "'let!' x ':=' m 'in' k" := (bind m (λ x, k))
  (at level 10, x name, m at level 100, k at level 200) : orm_scope.
Notation "'do!' m 'in' k" := (bind m (λ _, k))
  (at level 10, m at level 100, k at level 200) : orm_scope.

Definition author_ids (s : store) : list Z := Author.id <$> authors s.
Definition book_ids (s : store) : list Z := Book.id <$> books s.
Definition isbns (s : store) : list string := Book.isbn <$> books s.

Definition max_id (ids : list Z) : Z := foldr Z.max 0 ids.

(** The next automatic key: one more than every key in the table and every
    key handed out before. *)
Definition next_author_id (s : store) : Z :=
  Z.max (author_seq s) (max_id (author_ids s)) + 1.
Definition next_book_id (s : store) : Z :=
  Z.max (book_seq s) (max_id (book_ids s)) + 1.

(** The key space of the database: a primary key is a signed 64-bit
    integer. *)
Definition min_key : Z := - 2 ^ 63.
Definition max_key : Z := 2 ^ 63 - 1.

(** *** Managers: [Author.objects], [Book.objects] *)

(** [Author.objects.create(id=..., name=..., birth_date=..., country=...)].
    A [birth_date] that is no date of the calendar is refused when the row
    is prepared.  With [id] given the row is inserted under that key: a
    key outside the key space cannot be bound, and the insert is rejected
    when the key is taken.  Without [id] the key is automatic, and the
    insert fails once the key space is used up. *)
Definition Author_objects_create (id : option Z) (name : string)
    (birth_date : option date) (country : string) : M Author.t :=
  λ s,
    if negb (from_option valid_date true birth_date)
    then (s, inl ValidationError)
    else
      match id with
      | Some i =>
          if negb (bool_decide (min_key ≤ i ≤ max_key)%Z)
          then (s, inl OverflowError)
          else if decide (i ∈ author_ids s) then (s, inl IntegrityError)
          else
            let a := Author.Make i name birth_date country in
            (Store (authors s ++ [a]) (books s)
                   (Z.max (author_seq s) i) (book_seq s), inr a)
      | None =>
          let i := next_author_id s in
          if negb (bool_decide (i ≤ max_key)%Z)
          then (s, inl OperationalError)
          else
            let a := Author.Make i name birth_date country in
            (Store (authors s ++ [a]) (books s) i (book_seq s), inr a)
      end.

(** [Book.objects.create(title=..., author=..., published_date=...,
    isbn=...)].  A [published_date] that is no date of the calendar is
    refused when the row is prepared.  The insert is rejected when the
    [unique] column [isbn] already holds the value, or when the row would
    reference no author.  The key of a book is always automatic; the
    key space is taken to have room for it, and the statements that
    depend on that say so ([room_for_books]). *)
Definition Book_objects_create (title : string) (author : Author.t)
    (published_date : date) (isbn : string) : M Book.t :=
  λ s,
    if negb (valid_date published_date) then (s, inl ValidationError)
    else if Book.isbn_unique && bool_decide (isbn ∈ isbns s)
    then (s, inl IntegrityError)
    else if decide (Author.id author ∈ author_ids s) then
      let i := next_book_id s in
      let b := Book.Make i title (Author.id author) published_date isbn in
      (Store (authors s) (books s ++ [b]) (author_seq s) i, inr b)
    else (s, inl IntegrityError).

(** [Author.objects.get(pk=...)], [Book.objects.get(pk=...)] *)
Definition find_author (s : store) (pk : Z) : option Author.t :=
  List.find (λ a, bool_decide (Author.id a = pk)) (authors s).
Definition find_book (s : store) (pk : Z) : option Book.t :=
  List.find (λ b, bool_decide (Book.id b = pk)) (books s).

Definition Author_objects_get (pk : Z) : M Author.t :=
  λ s, match find_author s pk with
       | Some a => (s, inr a)
       | None => (s, inl DoesNotExist)
       end.
Definition Book_objects_get (pk : Z) : M Book.t :=
  λ s, match find_book s pk with
       | Some b => (s, inr b)
       | None => (s, inl DoesNotExist)
       end.

(** [queryset.delete()] on books: the selected rows go, nothing depends on
    a book. *)
Definition Book_delete (sel : Book.t → bool) : M unit :=
  λ s, (Store (authors s) (filter (λ b, sel b = false) (books s))
              (author_seq s) (book_seq s), inr tt).

(** [queryset.delete()] on authors.  The rows that reference a selected
    author through [Book.author] are collected first and treated as the
    foreign key's [on_delete] says; the whole deletion is one transaction,
    so a refusal leaves the store as it was. *)
Definition Author_delete (sel : Author.t → bool) : M unit :=
  λ s,
    let gone := Author.id <$> filter (λ a, sel a = true) (authors s) in
    let dependent := filter (λ b, Book.author_id b ∈ gone) (books s) in
    let kept_authors := filter (λ a, sel a = false) (authors s) in
    match Book.author_on_delete with
    | CASCADE =>
        (Store kept_authors
               (filter (λ b, Book.author_id b ∉ gone) (books s))
               (author_seq s) (book_seq s), inr tt)
    | PROTECT =>
        match dependent with
        | [] => (Store kept_authors (books s) (author_seq s) (book_seq s),
                 inr tt)
        | _ :: _ => (s, inl ProtectedError)
        end
    | DO_NOTHING =>
        match dependent with
        | [] => (Store kept_authors (books s) (author_seq s) (book_seq s),
                 inr tt)
        | _ :: _ => (s, inl IntegrityError)
        end
    end.

(** [instance.save()] on a row that exists: the row of that key is
    rewritten, under the same column constraints as an insert. *)
Definition Author_save (a : Author.t) : M unit :=
  λ s, (Store ((λ x, if decide (Author.id x = Author.id a) then a else x)
                 <$> authors s)
              (books s) (author_seq s) (book_seq s), inr tt).

Definition Book_save (b : Book.t) : M unit :=
  λ s,
    if Book.isbn_unique &&
       bool_decide (Exists (λ x, Book.isbn x = Book.isbn b
                                 ∧ Book.id x ≠ Book.id b) (books s))
    then (s, inl IntegrityError)
    else if decide (Book.author_id b ∈ author_ids s) then
      (Store (authors s)
             ((λ x, if decide (Book.id x = Book.id b) then b else x)
                <$> books s)
             (author_seq s) (book_seq s), inr tt)
    else (s, inl IntegrityError).

(** *** Text columns and [order_by]

    A model's text columns by lookup name.  Search and the declared
    orderings go through them.  A book of the view set's queryset is
    a row joined to its author, so [author__name] reads the second half. *)
Definition Author_column (f : string) (a : Author.t) : option string :=
  if decide (f = "name") then Some (Author.name a)
  else if decide (f = "country") then Some (Author.country a)
  else None.

Definition Book_column (f : string) (b : Book.t) : option string :=
  if decide (f = "title") then Some (Book.title b)
  else if decide (f = "isbn") then Some (Book.isbn b)
  else None.

Definition Joined_column (f : string) (r : Book.t * Author.t)
    : option string :=
  if decide (f = "author__name") then Some (Author.name r.2)
  else Book_column f r.1.

Section order_by.
Context {A : Type} (column : string → A → option string).

Definition column_cmp (f : string) (x y : A) : comparison :=
  match column f x, column f y with
  | Some u, Some v => String.compare u v
  | _, _ => Eq
  end.

Fixpoint ordering_cmp (fields : list string) (x y : A) : comparison :=
  match fields with
  | [] => Eq
  | f :: fields' =>
      match column_cmp f x y with
      | Eq => ordering_cmp fields' x y
      | c => c
      end
  end.

Definition ordering_le (fields : list string) : relation A :=
  λ x y, ordering_cmp fields x y ≠ Gt.

Global Instance ordering_le_dec fields : RelDecision (ordering_le fields).
Proof. intros x y. unfold ordering_le. apply _. Defined.

(** [queryset.order_by] over the given field names, ascending. *)
Definition order_by (fields : list string) (l : list A) : list A :=
  merge_sort (ordering_le fields) l.
End order_by.

(** [Author.objects.all()] and [Book.objects.select_related('author').all()]
    come in their model's [Meta.ordering]; the second joins each book to
    its author, so a row whose author is missing is not part of it. *)
Definition Author_objects_all (s : store) : list Author.t :=
  order_by Author_column Author.ordering (authors s).

Definition Book_objects_select_related_author (s : store)
    : list (Book.t * Author.t) :=
  order_by Joined_column Book.ordering
    (omap (λ b, pair b <$> find_author s (Book.author_id b)) (books s)).

(** [author.books.all()], the reverse side of [related_name='books'], in
    the default order of [Book]. *)
Definition Author_books (s : store) (a : Author.t) : list Book.t :=
  order_by Book_column Book.ordering
    (filter (λ b, Book.author_id b = Author.id a) (books s)).

(** ** serializers.py *)

(** The wire representation: JSON values, an object keeping the order of
    its keys. *)
Local Unset Elimination Schemes.
Inductive wire :=
  | WNull
  | WInt (n : Z)
  | WStr (s : string)
  | WDate (d : date)
  | WList (items : list wire)
  | WObj (members : list (string * wire)).
Local Set Elimination Schemes.

Definition keys (w : wire) : list string :=
  match w with
  | WObj members => members.*1
  | _ => []
  end.

Definition member (k : string) (w : wire) : option wire :=
  match w with
  | WObj members => snd <$> List.find (λ kv, bool_decide (kv.1 = k)) members
  | _ => None
  end.

(** A model serializer renders the names of [Meta.fields] in order, each
    through the field declared on the class or else through the model
    column of that name; write-only fields are left out. *)
Definition to_representation (field : string → option wire)
    (write_only fields : list string) : wire :=
  WObj (omap (λ f, if decide (f ∈ write_only) then None
                   else pair f <$> field f) fields).

Definition Author_attr (a : Author.t) (f : string) : option wire :=
  if decide (f = "id") then Some (WInt (Author.id a))
  else if decide (f = "name") then Some (WStr (Author.name a))
  else if decide (f = "birth_date")
  then Some (from_option WDate WNull (Author.birth_date a))
  else if decide (f = "country") then Some (WStr (Author.country a))
  else None.

Definition Book_attr (b : Book.t) (f : string) : option wire :=
  if decide (f = "id") then Some (WInt (Book.id b))
  else if decide (f = "title") then Some (WStr (Book.title b))
  else if decide (f = "published_date")
  then Some (WDate (Book.published_date b))
  else if decide (f = "isbn") then Some (WStr (Book.isbn b))
  else None.

Module BookSummarySerializer.
(** [fields = ['id', 'title', 'published_date', 'isbn']] *)
Definition fields : list string :=
  ["id"; "title"; "published_date"; "isbn"].

Definition data (b : Book.t) : wire :=
  to_representation (Book_attr b) [] fields.
End BookSummarySerializer.

Module AuthorSerializer.
(** [fields = ['id', 'name', 'birth_date', 'country', 'books']] *)
Definition fields : list string :=
  ["id"; "name"; "birth_date"; "country"; "books"].

(** [books = BookSummarySerializer(many=True, read_only=True)]; the
    primary key is read-only as well. *)
Definition read_only : list string := ["id"; "books"].

Definition field (s : store) (a : Author.t) (f : string) : option wire :=
  if decide (f = "books")
  then Some (WList (BookSummarySerializer.data <$> Author_books s a))
  else Author_attr a f.

Definition data (s : store) (a : Author.t) : wire :=
  to_representation (field s a) [] fields.
End AuthorSerializer.

Module BookSerializer.
(** [fields = ['id', 'title', 'author', 'author_id', 'published_date',
    'isbn']] *)
Definition fields : list string :=
  ["id"; "title"; "author"; "author_id"; "published_date"; "isbn"].

(** [author = AuthorSerializer(read_only=True)] *)
Definition read_only : list string := ["id"; "author"].

(** [author_id = PrimaryKeyRelatedField(queryset=Author.objects.all(),
    source='author', write_only=True)] *)
Definition write_only : list string := ["author_id"].

(** The instance is a book with its author, [book.author]. *)
Definition field (s : store) (r : Book.t * Author.t) (f : string)
    : option wire :=
  if decide (f = "author") then Some (AuthorSerializer.data s r.2)
  else Book_attr r.1 f.

Definition data (s : store) (r : Book.t * Author.t) : wire :=
  to_representation (field s r) write_only fields.
End BookSerializer.

(** *** Validation of a write

    A payload names the writable fields it carries; [None] is a key the
    request left out.  Fields are checked in the order of [Meta.fields]
    and every failure is reported under its field name. *)

Inductive code :=
  required | blank | max_length | unique | does_not_exist | invalid.

Global Instance code_eq_dec : EqDecision code.
Proof. solve_decision. Defined.

Definition errors := list (string * code).

Module AuthorData.
Record t := Make {
  name : option string;
  birth_date : option (option date);
  country : option string
}.
End AuthorData.

Module BookData.
Record t := Make {
  title : option string;
  author_id : option Z;
  published_date : option date;
  isbn : option string
}.
End BookData.

(** A field the request left out is an error when the field is required
    and the write is not a partial update. *)
Definition missing (f : string) (is_required partial : bool) : errors :=
  if is_required && negb partial then [(f, required)] else [].

(** A text field built from a [CharField(max_length=...)] column.  The
    field trims what it is given ([trim_whitespace]): a text that is
    blank once trimmed is refused or, where blank is allowed, taken as the
    empty text; otherwise the trimmed text is measured in characters. *)
Definition char_field (f : string) (is_required allow_blank : bool)
    (max_len : nat) (partial : bool) (v : option string) : errors :=
  match v with
  | None => missing f is_required partial
  | Some data =>
      let value := strip data in
      if decide (value = "") then (if allow_blank then [] else [(f, blank)])
      else if decide (max_len < char_length value)%nat
      then [(f, max_length)] else []
  end.

(** A date field built from a [DateField] column: what is written must be
    a date of the calendar. *)
Definition date_field (f : string) (v : date) : errors :=
  if valid_date v then [] else [(f, invalid)].

Definition AuthorSerializer_validate_field (partial : bool)
    (d : AuthorData.t) (f : string) : errors :=
  if decide (f ∈ AuthorSerializer.read_only) then []
  else if decide (f = "name")
  then char_field f true false Author.name_max_length partial
         (AuthorData.name d)
  else if decide (f = "birth_date") then
    match AuthorData.birth_date d with
    | Some (Some v) => date_field f v
    | Some None | None => []
    end
  else if decide (f = "country")
  then char_field f false true Author.country_max_length partial
         (AuthorData.country d)
  else [].

Definition AuthorSerializer_run_validation (partial : bool)
    (d : AuthorData.t) : errors :=
  flat_map (AuthorSerializer_validate_field partial d)
           AuthorSerializer.fields.

(** [instance] is the key of the book under update, if any: the
    uniqueness check of [isbn] leaves that row out.  The checks of [isbn]
    are made on the trimmed text. *)
Definition BookSerializer_validate_field (s : store) (instance : option Z)
    (partial : bool) (d : BookData.t) (f : string) : errors :=
  if decide (f ∈ BookSerializer.read_only) then []
  else if decide (f = "title")
  then char_field f true false Book.title_max_length partial
         (BookData.title d)
  else if decide (f = "author_id") then
    match BookData.author_id d with
    | None => missing f true partial
    | Some pk =>
        match find_author s pk with
        | Some _ => []
        | None => [(f, does_not_exist)]
        end
    end
  else if decide (f = "published_date") then
    match BookData.published_date d with
    | None => missing f true partial
    | Some v => date_field f v
    end
  else if decide (f = "isbn") then
    match BookData.isbn d with
    | None => missing f true partial
    | Some data =>
        let v := strip data in
        if decide (v = "") then [(f, blank)]
        else
          List.app
            (if Book.isbn_unique &&
                bool_decide (Exists (λ x, Book.isbn x = v
                                          ∧ Some (Book.id x) ≠ instance)
                                    (books s))
             then [(f, unique)] else [])
            (if decide (Book.isbn_max_length < char_length v)%nat
             then [(f, max_length)] else [])
    end
  else [].

Definition BookSerializer_run_validation (s : store) (instance : option Z)
    (partial : bool) (d : BookData.t) : errors :=
  flat_map (BookSerializer_validate_field s instance partial d)
           BookSerializer.fields.

(** The validated data: a text field holds the trimmed text. *)
Definition validated_text (v : option string) : option string := strip <$> v.

(** ** viewsets.py *)

Inductive response :=
  | HTTP_200 (body : wire)
  | HTTP_201 (body : wire)
  | HTTP_204
  | HTTP_400 (detail : errors)
  | HTTP_404
  | HTTP_500 (e : exn).

Definition action := store → store * response.

(** [filters.SearchFilter]: with search fields and search terms, a row
    stays when every term is found in at least one of the fields. *)
Definition search_match {A} (column : string → A → option string)
    (search_fields terms : list string) (x : A) : bool :=
  forallb (λ t,
    existsb (λ f, from_option (λ v, icontains v t) false (column f x))
            search_fields) terms.

Definition SearchFilter {A} (column : string → A → option string)
    (search_fields terms : list string) (queryset : list A) : list A :=
  if bool_decide (search_fields = []) || bool_decide (terms = [])
  then queryset
  else filter (λ x, search_match column search_fields terms x = true)
              queryset.

Module AuthorViewSet.
Definition search_fields : list string := ["name"; "country"].
Definition ordering_fields : list string := ["name"; "birth_date"].
Definition ordering : list string := ["name"].

(** [queryset = Author.objects.all()] *)
Definition queryset := Author_objects_all.

(** [filter_backends = [filters.SearchFilter, filters.OrderingFilter]],
    on a request without an [ordering] parameter. *)
Definition filter_queryset (s : store) (terms : list string)
    : list Author.t :=
  order_by Author_column ordering
    (SearchFilter Author_column search_fields terms (queryset s)).

Definition get_object (s : store) (pk : Z) : option Author.t :=
  List.find (λ a, bool_decide (Author.id a = pk)) (queryset s).
End AuthorViewSet.

Module BookViewSet.
Definition search_fields : list string := ["title"; "author__name"; "isbn"].
Definition ordering_fields : list string := ["title"; "published_date"].
Definition ordering : list string := ["title"].

(** [queryset = Book.objects.select_related('author').all()] *)
Definition queryset := Book_objects_select_related_author.

Definition filter_queryset (s : store) (terms : list string)
    : list (Book.t * Author.t) :=
  order_by Joined_column ordering
    (SearchFilter Joined_column search_fields terms (queryset s)).

Definition get_object (s : store) (pk : Z) : option (Book.t * Author.t) :=
  List.find (λ r, bool_decide (Book.id r.1 = pk)) (queryset s).
End BookViewSet.

(** The query layer under the two view sets. *)
Definition listAuthors (s : store) (terms : list string) : list Author.t :=
  AuthorViewSet.filter_queryset s terms.

Definition listBooks (s : store) (terms : list string) : list Book.t :=
  (BookViewSet.filter_queryset s terms).*1.

(** [SearchFilter.get_search_terms]: the [search] parameter of the request
    without its null characters, commas read as blanks, split at
    whitespace. *)
Definition get_search_terms (params : string) : list string :=
  split (replace "," " " (replace "000" "" params)).

(** The two lists as a request asks for them: [searchTerm] is the [search]
    parameter, [None] when the request has none. *)
Definition searchAuthors (s : store) (searchTerm : option string)
    : list Author.t :=
  listAuthors s (get_search_terms (default "" searchTerm)).

Definition searchBooks (s : store) (searchTerm : option string)
    : list Book.t :=
  listBooks s (get_search_terms (default "" searchTerm)).

(** *** Actions of [ModelViewSet] *)

(** [list]: the terms of the search are read from the [search] parameter
    of the request, [None] when the request has none. *)
Definition AuthorViewSet_list (search : option string) : action :=
  λ s, (s, HTTP_200
             (WList (AuthorSerializer.data s
                       <$> AuthorViewSet.filter_queryset s
                             (get_search_terms (default "" search))))).

Definition AuthorViewSet_retrieve (pk : Z) : action :=
  λ s, match AuthorViewSet.get_object s pk with
       | Some a => (s, HTTP_200 (AuthorSerializer.data s a))
       | None => (s, HTTP_404)
       end.

(** [create]: validate, then [Author.objects.create] with the validated
    data; a field the payload left out takes the column's default. *)
Definition AuthorViewSet_create (d : AuthorData.t) : action :=
  λ s, match AuthorSerializer_run_validation false d with
       | [] =>
           match Author_objects_create None
                   (default "" (validated_text (AuthorData.name d)))
                   (default None (AuthorData.birth_date d))
                   (default "" (validated_text (AuthorData.country d))) s
           with
           | (s', inr a) => (s', HTTP_201 (AuthorSerializer.data s' a))
           | (s', inl e) => (s', HTTP_500 e)
           end
       | detail => (s, HTTP_400 detail)
       end.

(** [update] and [partial_update]: look the instance up, validate, set the
    validated fields on it and save. *)
Definition AuthorViewSet_update (partial : bool) (pk : Z) (d : AuthorData.t)
    : action :=
  λ s, match AuthorViewSet.get_object s pk with
       | None => (s, HTTP_404)
       | Some a =>
           match AuthorSerializer_run_validation partial d with
           | [] =>
               let a' := Author.Make (Author.id a)
                           (default (Author.name a)
                                    (validated_text (AuthorData.name d)))
                           (default (Author.birth_date a)
                                    (AuthorData.birth_date d))
                           (default (Author.country a)
                                    (validated_text (AuthorData.country d)))
               in
               match Author_save a' s with
               | (s', inr _) => (s', HTTP_200 (AuthorSerializer.data s' a'))
               | (s', inl e) => (s', HTTP_500 e)
               end
           | detail => (s, HTTP_400 detail)
           end
       end.

(** [destroy]: look the instance up and delete it. *)
Definition AuthorViewSet_destroy (pk : Z) : action :=
  λ s, match AuthorViewSet.get_object s pk with
       | None => (s, HTTP_404)
       | Some a =>
           match Author_delete
                   (λ x, bool_decide (Author.id x = Author.id a)) s with
           | (s', inr _) => (s', HTTP_204)
           | (s', inl e) => (s', HTTP_500 e)
           end
       end.

Definition BookViewSet_list (search : option string) : action :=
  λ s, (s, HTTP_200
             (WList (BookSerializer.data s
                       <$> BookViewSet.filter_queryset s
                             (get_search_terms (default "" search))))).

Definition BookViewSet_retrieve (pk : Z) : action :=
  λ s, match BookViewSet.get_object s pk with
       | Some r => (s, HTTP_200 (BookSerializer.data s r))
       | None => (s, HTTP_404)
       end.

(** The author a validated [author_id] stands for ([source='author']). *)
Definition resolve_author (s : store) (d : BookData.t) : option Author.t :=
  BookData.author_id d ≫= find_author s.

Definition BookViewSet_create (d : BookData.t) : action :=
  λ s, match BookSerializer_run_validation s None false d with
       | [] =>
           match validated_text (BookData.title d), resolve_author s d,
                 BookData.published_date d,
                 validated_text (BookData.isbn d) with
           | Some title, Some author, Some published_date, Some isbn =>
               match Book_objects_create title author published_date isbn s
               with
               | (s', inr b) =>
                   (s', HTTP_201 (BookSerializer.data s' (b, author)))
               | (s', inl e) => (s', HTTP_500 e)
               end
           | _, _, _, _ => (s, HTTP_400 []) (* validated data has all four *)
           end
       | detail => (s, HTTP_400 detail)
       end.

Definition BookViewSet_update (partial : bool) (pk : Z) (d : BookData.t)
    : action :=
  λ s, match BookViewSet.get_object s pk with
       | None => (s, HTTP_404)
       | Some (b, a) =>
           match BookSerializer_run_validation s (Some (Book.id b))
                   partial d with
           | [] =>
               let a' := default a (resolve_author s d) in
               let b' := Book.Make (Book.id b)
                           (default (Book.title b)
                                    (validated_text (BookData.title d)))
                           (Author.id a')
                           (default (Book.published_date b)
                                    (BookData.published_date d))
                           (default (Book.isbn b)
                                    (validated_text (BookData.isbn d))) in
               match Book_save b' s with
               | (s', inr _) =>
                   (s', HTTP_200 (BookSerializer.data s' (b', a')))
               | (s', inl e) => (s', HTTP_500 e)
               end
           | detail => (s, HTTP_400 detail)
           end
       end.

Definition BookViewSet_destroy (pk : Z) : action :=
  λ s, match BookViewSet.get_object s pk with
       | None => (s, HTTP_404)
       | Some (b, _) =>
           match Book_delete (λ x, bool_decide (Book.id x = Book.id b)) s
           with
           | (s', inr _) => (s', HTTP_204)
           | (s', inl e) => (s', HTTP_500 e)
           end
       end.

(** ** management/commands/fetch_data.py *)

(** The fixture document: the object read from [sample_data.json].  A key
    that an object does not carry is [None]; [birth_date] may be present
    and null. *)
Module AuthorEntry.
Record t := Make {
  id : option Z;
  name : option string;
  birth_date : option (option date);
  country : option string
}.
End AuthorEntry.

Module BookEntry.
Record t := Make {
  title : option string;
  author_id : option Z;
  published_date : option date;
  isbn : option string
}.
End BookEntry.

Module Fixture.
Record t := Make {
  authors : option (list AuthorEntry.t);
  books : option (list BookEntry.t)
}.
End Fixture.

(** [d[key]] on an object of the document *)
Definition subscript {A} (key : string) (v : option A) : M A :=
  match v with
  | Some x => ret x
  | None => raise (KeyError (inl key))
  end.

(** [authors[book_data['author_id']]] on the loader's own dictionary *)
Definition lookup_author (authors : gmap Z Author.t) (pk : Z) : M Author.t :=
  match authors !! pk with
  | Some a => ret a
  | None => raise (KeyError (inr pk))
  end.

Local Open Scope orm_scope.

(** [for author_data in data['authors']: ...] *)
Fixpoint create_authors (entries : list AuthorEntry.t)
    (authors : gmap Z Author.t) : M (gmap Z Author.t) :=
  match entries with
  | [] => ret authors
  | author_data :: entries' =>
      let! id := subscript "id" (AuthorEntry.id author_data) in
      let! name := subscript "name" (AuthorEntry.name author_data) in
      let! birth_date :=
        subscript "birth_date" (AuthorEntry.birth_date author_data) in
      let! country := subscript "country" (AuthorEntry.country author_data) in
      let! author := Author_objects_create (Some id) name birth_date country in
      create_authors entries' (<[Author.id author := author]> authors)
  end.

(** [for book_data in data['books']: ...] *)
Fixpoint create_books (entries : list BookEntry.t)
    (authors : gmap Z Author.t) : M unit :=
  match entries with
  | [] => ret tt
  | book_data :: entries' =>
      let! title := subscript "title" (BookEntry.title book_data) in
      let! author_id :=
        subscript "author_id" (BookEntry.author_id book_data) in
      let! author := lookup_author authors author_id in
      let! published_date :=
        subscript "published_date" (BookEntry.published_date book_data) in
      let! isbn := subscript "isbn" (BookEntry.isbn book_data) in
      let! book := Book_objects_create title author published_date isbn in
      create_books entries' authors
  end.

(** [Command.handle]; the value returned is the pair of counts of the
    closing message. *)
Definition handle (data : Fixture.t) : M (nat * nat) :=
  do! Book_delete (λ _, true) in
  do! Author_delete (λ _, true) in
  let! author_entries := subscript "authors" (Fixture.authors data) in
  let! authors := create_authors author_entries ∅ in
  let! book_entries := subscript "books" (Fixture.books data) in
  do! create_books book_entries authors in
  ret (size authors, length book_entries).

Local Close Scope orm_scope.

(** ** admin.py *)

Module AuthorAdmin.
(** [list_display = ('name', 'country', 'birth_date', 'book_count')] *)
Definition list_display : list string :=
  ["name"; "country"; "birth_date"; "book_count"].

(** [def book_count(self, obj): return obj.books.count()] *)
Definition book_count (s : store) (obj : Author.t) : nat :=
  length (Author_books s obj).
End AuthorAdmin.

(** ** views.py

    A view renders a template on a context; the templates are not part of
    the application code, so a page is kept as the template's name and the
    context handed to it. *)

Inductive template_context :=
  | no_context
  | authors_context (authors : list Author.t)
  | books_context (books : list (Book.t * Author.t)).

Record page :=
  render { template_name : string; page_context : template_context }.

Definition home (s : store) : page :=
  render "books/home.html" no_context.

(** [authors = Author.objects.all()] *)
Definition author_list (s : store) : page :=
  render "books/author_list.html" (authors_context (Author_objects_all s)).

(** [books = Book.objects.select_related('author').all()] *)
Definition book_list (s : store) : page :=
  render "books/book_list.html"
         (books_context (Book_objects_select_related_author s)).

(** ** urls.py

    [router.register(r'api/authors', AuthorViewSet)] and
    [router.register(r'api/books', BookViewSet)]: the prefix selects the
    view set, and a [ModelViewSet] answers the six actions below, each
    under its method. *)

Inductive api_action (D : Type) :=
  | GET_list (search : option string)
  | POST_create (d : D)
  | GET_retrieve (pk : Z)
  | PUT_update (pk : Z) (d : D)
  | PATCH_partial_update (pk : Z) (d : D)
  | DELETE_destroy (pk : Z).

Arguments GET_list {D} search.
Arguments POST_create {D} d.
Arguments GET_retrieve {D} pk.
Arguments PUT_update {D} pk d.
Arguments PATCH_partial_update {D} pk d.
Arguments DELETE_destroy {D} pk.

Inductive api_request :=
  | api_authors (a : api_action AuthorData.t)
  | api_books (a : api_action BookData.t).

Definition AuthorViewSet_as_view (a : api_action AuthorData.t) : action :=
  match a with
  | GET_list search => AuthorViewSet_list search
  | POST_create d => AuthorViewSet_create d
  | GET_retrieve pk => AuthorViewSet_retrieve pk
  | PUT_update pk d => AuthorViewSet_update false pk d
  | PATCH_partial_update pk d => AuthorViewSet_update true pk d
  | DELETE_destroy pk => AuthorViewSet_destroy pk
  end.

Definition BookViewSet_as_view (a : api_action BookData.t) : action :=
  match a with
  | GET_list search => BookViewSet_list search
  | POST_create d => BookViewSet_create d
  | GET_retrieve pk => BookViewSet_retrieve pk
  | PUT_update pk d => BookViewSet_update false pk d
  | PATCH_partial_update pk d => BookViewSet_update true pk d
  | DELETE_destroy pk => BookViewSet_destroy pk
  end.

Definition router (r : api_request) : action :=
  match r with
  | api_authors a => AuthorViewSet_as_view a
  | api_books a => BookViewSet_as_view a
  end.

(** ** Vocabulary of the statements *)

(** The store after a sequence of requests, served one after the other. *)
Definition serve (requests : list api_request) (s : store) : store :=
  foldl (λ s r, (router r s).1) s requests.


(** The payload of a request that carries no field. *)
Definition no_author_fields : AuthorData.t := AuthorData.Make None None None.
Definition no_book_fields : BookData.t := BookData.Make None None None None.

(** The payloads and requests the statements about accepted writes speak
    of: every text is plain, and every key a request names lies in the key
    space. *)
Definition key_in_range (k : Z) : Prop := (min_key ≤ k ≤ max_key)%Z.

(** A search parameter of plain text without quotation marks. *)
Definition quote (c : ascii) : bool :=
  bool_decide (c = "034"%char) || bool_decide (c = "039"%char).

Definition plain_search (params : string) : Prop :=
  forallb (λ c, printable c && negb (quote c))
          (list_ascii_of_string params) = true.

Definition plain_author_data (d : AuthorData.t) : Prop :=
  from_option plain True (AuthorData.name d)
  ∧ from_option plain True (AuthorData.country d).

Definition plain_book_data (d : BookData.t) : Prop :=
  from_option plain True (BookData.title d)
  ∧ from_option plain True (BookData.isbn d)
  ∧ from_option key_in_range True (BookData.author_id d).

Definition plain_action {D} (plain_data : D → Prop) (next_id : Z)
    (a : api_action D) : Prop :=
  match a with
  | GET_list search => from_option plain_search True search
  | POST_create d => plain_data d ∧ (next_id ≤ max_key)%Z
  | GET_retrieve pk | DELETE_destroy pk => key_in_range pk
  | PUT_update pk d | PATCH_partial_update pk d =>
      key_in_range pk ∧ plain_data d
  end.

Definition plain_request (s : store) (r : api_request) : Prop :=
  match r with
  | api_authors a => plain_action plain_author_data (next_author_id s) a
  | api_books a => plain_action plain_book_data (next_book_id s) a
  end.

Global Instance key_in_range_dec k : Decision (key_in_range k).
Proof. unfold key_in_range. apply _. Defined.

Global Instance plain_dec s : Decision (plain s).
Proof. unfold plain. apply _. Defined.

Global Instance plain_author_data_dec d : Decision (plain_author_data d).
Proof.
  unfold plain_author_data. destruct d as [[name|] birth_date [country|]];
    simpl; apply _.
Defined.

Global Instance plain_book_data_dec d : Decision (plain_book_data d).
Proof.
  unfold plain_book_data.
  destruct d as [[title|] [author_id|] published_date [isbn|]];
    simpl; apply _.
Defined.

Global Instance plain_search_dec params : Decision (plain_search params).
Proof. unfold plain_search. apply _. Defined.

Global Instance plain_request_dec s r : Decision (plain_request s r).
Proof.
  destruct r as [[[search|]| | | | |]|[[search|]| | | | |]]; simpl; apply _.
Defined.

(** A single word: plain text without blank, comma or quotation mark. *)
Definition word_char (c : ascii) : bool :=
  printable c && negb (quote c)
  && negb (bool_decide (c = " "%char)) && negb (bool_decide (c = ","%char)).

Definition single_word (w : string) : Prop :=
  w ≠ "" ∧ forallb word_char (list_ascii_of_string w) = true.

(** An author is found under a list of terms when each term occurs in its
    name or in its country, letters compared without case. *)
Definition author_has_terms (terms : list string) (a : Author.t) : Prop :=
  Forall (λ t, contains_ci (Author.name a) t
               ∨ contains_ci (Author.country a) t) terms.

(** Ascending on a text column. *)
Definition ascending {A} (key : A → string) : relation A :=
  λ x y, String.le (key x) (key y).

Definition by_name : relation Author.t := ascending Author.name.
Definition by_title : relation Book.t := ascending Book.title.

(** The integrity constraints the database keeps on the two tables:
    primary keys and [isbn] are unique, and every book references an author
    that is there. *)
Definition wf (s : store) : Prop :=
  NoDup (author_ids s) ∧ NoDup (book_ids s) ∧ NoDup (isbns s) ∧
  Forall (λ b, Book.author_id b ∈ author_ids s) (books s).

Global Instance wf_dec s : Decision (wf s).
Proof. unfold wf. apply _. Defined.

(** The error kinds of the service, by what the response reports: a
    missing target is answered with 404, a reference that does not resolve
    with 400 and the failure [does_not_exist] under [author_id]. *)
Definition NotFound (r : response) : Prop := r = HTTP_404.

Definition ReferenceError (r : response) : Prop :=
  ∃ detail, r = HTTP_400 detail ∧ ("author_id", does_not_exist) ∈ detail.

(** The row an author entry of the fixture stands for, when it carries
    all four keys; and a book row agreeing with a book entry. *)
Definition author_row (e : AuthorEntry.t) : option Author.t :=
  id ← AuthorEntry.id e;
  name ← AuthorEntry.name e;
  birth_date ← AuthorEntry.birth_date e;
  country ← AuthorEntry.country e;
  Some (Author.Make id name birth_date country).

Definition book_row (b : Book.t) (e : BookEntry.t) : Prop :=
  BookEntry.title e = Some (Book.title b) ∧
  BookEntry.author_id e = Some (Book.author_id b) ∧
  BookEntry.published_date e = Some (Book.published_date b) ∧
  BookEntry.isbn e = Some (Book.isbn b).

Definition complete_author_entry (e : AuthorEntry.t) : Prop :=
  is_Some (AuthorEntry.id e) ∧ is_Some (AuthorEntry.name e) ∧
  is_Some (AuthorEntry.birth_date e) ∧ is_Some (AuthorEntry.country e).

Definition complete_book_entry (e : BookEntry.t) : Prop :=
  is_Some (BookEntry.title e) ∧ is_Some (BookEntry.author_id e) ∧
  is_Some (BookEntry.published_date e) ∧ is_Some (BookEntry.isbn e).

(** The loader's dictionary maps every key to an author of that key. *)
Definition dict_ok (authors : gmap Z Author.t) : Prop :=
  ∀ k a, authors !! k = Some a → Author.id a = k.

(** A book of the store matches the search when its author is there and
    the joined row passes the search filter of [BookViewSet]. *)
Definition book_matches (s : store) (terms : list string) (b : Book.t)
    : bool :=
  from_option
    (λ a, search_match Joined_column BookViewSet.search_fields terms (b, a))
    false (find_author s (Book.author_id b)).

(** The entries of a fixture document, none under a key it lacks; and the
    store once the loader has cleared both tables. *)
Definition author_entries (data : Fixture.t) : list AuthorEntry.t :=
  default [] (Fixture.authors data).
Definition book_entries (data : Fixture.t) : list BookEntry.t :=
  default [] (Fixture.books data).
Definition cleared (s : store) : store :=
  Store [] [] (author_seq s) (book_seq s).

(** A document the loader can load: both keys are there, every entry
    carries its four keys, every id lies in the key space and every date
    is a date of the calendar, no two authors share an id, no two books
    share an isbn, and every book names the id of an author of the
    document. *)
Definition loadable_author_entry (e : AuthorEntry.t) : Prop :=
  complete_author_entry e
  ∧ (∀ k, AuthorEntry.id e = Some k → key_in_range k)
  ∧ (∀ d, AuthorEntry.birth_date e = Some (Some d) → valid_date d = true).

Definition loadable_book_entry (e : BookEntry.t) : Prop :=
  complete_book_entry e
  ∧ (∀ d, BookEntry.published_date e = Some d → valid_date d = true).

Definition loadable (data : Fixture.t) : Prop :=
  is_Some (Fixture.authors data) ∧ is_Some (Fixture.books data)
  ∧ Forall loadable_author_entry (author_entries data)
  ∧ Forall loadable_book_entry (book_entries data)
  ∧ NoDup (omap AuthorEntry.id (author_entries data))
  ∧ NoDup (omap BookEntry.isbn (book_entries data))
  ∧ Forall (λ e, ∃ k, BookEntry.author_id e = Some k
                      ∧ k ∈ omap AuthorEntry.id (author_entries data))
           (book_entries data).

(** The key space has room for [n] more books. *)
Definition room_for_books (s : store) (n : nat) : Prop :=
  (Z.max (book_seq s) (max_id (book_ids s)) + Z.of_nat n ≤ max_key)%Z.

Global Instance room_for_books_dec s n : Decision (room_for_books s n).
Proof. unfold room_for_books. apply _. Defined.

(** ** Sample catalog *)

Definition tolkien : Author.t :=
  Author.Make 1 "J.R.R. Tolkien" (Some (Date 1892 1 3)) "UK".
Definition carpenter : Author.t :=
  Author.Make 2 "Humphrey Carpenter" (Some (Date 1946 4 29)) "UK".
Definition hobbit : Book.t :=
  Book.Make 1 "The Hobbit" 1 (Date 1937 9 21) "9780547928227".
Definition biography : Book.t :=
  Book.Make 2 "Tolkien: A Biography" 2 (Date 1977 5 5) "9780618057023".
Definition sample : store := Store [tolkien; carpenter] [hobbit; biography] 2 2.

(** ** Sample fixture documents *)

Definition tolkien_entry : AuthorEntry.t :=
  AuthorEntry.Make (Some 1) (Some "J.R.R. Tolkien")
                   (Some (Some (Date 1892 1 3))) (Some "UK").
Definition hobbit_entry : BookEntry.t :=
  BookEntry.Make (Some "The Hobbit") (Some 1) (Some (Date 1937 9 21))
                 (Some "9780547928227").
Definition sample_fixture : Fixture.t :=
  Fixture.Make (Some [tolkien_entry]) (Some [hobbit_entry]).

(** An author entry without the key [birth_date], and a book entry whose
    [author_id] names author 2, who is in [sample] but not in the
    document. *)
Definition undated_entry : AuthorEntry.t :=
  AuthorEntry.Make (Some 1) (Some "J.R.R. Tolkien") None (Some "UK").
Definition undated_fixture : Fixture.t :=
  Fixture.Make (Some [undated_entry]) (Some [hobbit_entry]).
Definition biography_entry : BookEntry.t :=
  BookEntry.Make (Some "Tolkien: A Biography") (Some 2)
                 (Some (Date 1977 5 5)) (Some "9780618057023").
Definition dangling_fixture : Fixture.t :=
  Fixture.Make (Some [tolkien_entry]) (Some [hobbit_entry; biography_entry]).

(** ** Sample request bodies *)

(** A new author, and a book body whose [author_id] names no author of
    [sample]. *)
Definition lewis_data : AuthorData.t :=
  AuthorData.Make (Some "C.S. Lewis") (Some (Some (Date 1898 11 29)))
                  (Some "UK").
Definition orphan_data : BookData.t :=
  BookData.Make (Some "The Silmarillion") (Some 7) (Some (Date 1977 9 15))
                (Some "9780618391110").

(** A book body for author 1; partial bodies that rename an author, hand a
    book to author 2, and take the isbn of the biography; a sequence of
    requests; and [sample] after the loader has run on [sample_fixture]. *)
Definition silmarillion_data : BookData.t :=
  BookData.Make (Some "The Silmarillion") (Some 1) (Some (Date 1977 9 15))
                (Some "9780618391110").
Definition rename_data : AuthorData.t :=
  AuthorData.Make (Some "John Ronald Reuel Tolkien") None None.
Definition reassign_data : BookData.t :=
  BookData.Make None (Some 2) None None.
Definition clashing_data : BookData.t :=
  BookData.Make None None None (Some "9780618057023").
Definition sample_requests : list api_request :=
  [api_authors (POST_create lewis_data);
   api_books (POST_create silmarillion_data);
   api_books (PATCH_partial_update 1 reassign_data);
   api_authors (DELETE_destroy 2)].
Definition loaded : store :=
  Store [tolkien]
        [Book.Make 3 "The Hobbit" 1 (Date 1937 9 21) "9780547928227"] 2 3.

(** A new author whose name is sent with blanks around it. *)
Definition padded_data : AuthorData.t :=
  AuthorData.Make (Some " C.S. Lewis ") (Some (Some (Date 1898 11 29)))
                  (Some "UK").


(** * Properties *)

(** ** Substring search *)

Lemma prefix_app (a b : string) :
  String.prefix a b = true ↔ ∃ post, b = a ++ post.
Proof.
  revert b. induction a as [|c a IH]; intros b; simpl.
  - destruct b; split; eauto.
  - destruct b as [|c' b]; simpl.
    + split; [discriminate | intros [post H]; discriminate].
    + destruct (ascii_dec c c') as [->|Hne].
      * rewrite IH. split; intros [post H]; exists post.
        -- by rewrite H.
        -- by injection H.
      * split; [discriminate | intros [post H]; injection H; congruence].
Qed.

Lemma contains_app (needle hay : string) :
  contains needle hay = true ↔ ∃ pre post, hay = pre ++ needle ++ post.
Proof.
  induction hay as [|c hay IH]; cbn [contains].
  - rewrite orb_false_r, prefix_app. split.
    + intros [post H]. by exists "", post.
    + intros [[|c pre] [post H]]; [by exists post | discriminate].
  - rewrite orb_true_iff, IH, prefix_app. split.
    + intros [[post H]|(pre & post & H)].
      * by exists "", post.
      * exists (String c pre), post. simpl. by rewrite H.
    + intros ([|c' pre] & post & H).
      * left. by exists post.
      * right. exists pre, post. simpl in H. by injection H.
Qed.

Lemma icontains_spec (value term : string) :
  icontains value term = true ↔ contains_ci value term.
Proof. apply contains_app. Qed.

Global Instance contains_ci_dec value term : Decision (contains_ci value term).
Proof.
  refine (cast_if (decide (icontains value term = true)));
    by rewrite <- icontains_spec.
Defined.

Lemma icontains_empty (value : string) : icontains value "" = true.
Proof. apply icontains_spec. by exists "", (lower value). Qed.

Local Open Scope list_scope.

(** ** [order_by] sorts *)

Lemma order_by_Permutation {A} (column : string → A → option string)
    (fields : list string) (l : list A) :
  order_by column fields l ≡ₚ l.
Proof. apply merge_sort_Permutation. Qed.

Lemma elem_of_order_by {A} (column : string → A → option string)
    (fields : list string) (l : list A) (x : A) :
  x ∈ order_by column fields l ↔ x ∈ l.
Proof. by rewrite order_by_Permutation. Qed.

Section order_by_one_column.
Context {A : Type} (column : string → A → option string).
Context (f : string) (key : A → string).
Hypothesis column_key : ∀ x, column f x = Some (key x).

Lemma ordering_le_one (x y : A) :
  ordering_le column [f] x y ↔ ascending key x y.
Proof.
  unfold ordering_le, ascending, String.le, String.leb. cbn [ordering_cmp].
  unfold column_cmp. rewrite !column_key.
  destruct (String.compare (key x) (key y)); simpl; intuition congruence.
Qed.

Lemma ordering_le_one_total : Total (ordering_le column [f]).
Proof.
  intros x y. rewrite !ordering_le_one. unfold ascending.
  apply String.le_total.
Qed.

Lemma order_by_ascending (l : list A) :
  StronglySorted (ascending key) (order_by column [f] l).
Proof.
  assert (Transitive (ascending key)) as Htrans.
  { intros x y z. unfold ascending. apply transitivity. }
  apply Sorted_StronglySorted; [done|].
  pose proof (@Sorted_merge_sort _ (ordering_le column [f]) _
                ordering_le_one_total l) as Hs.
  unfold order_by. induction Hs as [|x l' Hl IH Hhd]; constructor; [done|].
  destruct Hhd; constructor. by apply ordering_le_one.
Qed.
End order_by_one_column.

(** A closed decidable proposition, settled by evaluating its decision. *)
Ltac by_evaluation := apply (bool_decide_unpack _); vm_compute; exact I.

(** ** Lookups by key *)

Lemma find_Some_elem {A} (p : A → bool) (l : list A) (x : A) :
  List.find p l = Some x → x ∈ l ∧ p x = true.
Proof.
  intros H. apply List.find_some in H as [Hin Hp].
  split; [by apply list_elem_of_In | done].
Qed.

Lemma find_None_elem {A} (p : A → bool) (l : list A) :
  List.find p l = None ↔ ∀ x, x ∈ l → p x = false.
Proof.
  split.
  - intros H x Hx. apply (List.find_none p l H). by apply list_elem_of_In.
  - intros H. destruct (List.find p l) as [x|] eqn:Hf; [|done].
    apply find_Some_elem in Hf as [Hin Hp]. rewrite (H x Hin) in Hp. done.
Qed.

Lemma find_the_one {A} (p : A → bool) (l : list A) (x : A) :
  x ∈ l → p x = true → (∀ y, y ∈ l → p y = true → y = x) →
  List.find p l = Some x.
Proof.
  intros Hin Hp Huniq. destruct (List.find p l) as [y|] eqn:Hf.
  - apply find_Some_elem in Hf as [Hy Hpy]. by rewrite (Huniq y Hy Hpy).
  - rewrite find_None_elem in Hf. rewrite (Hf x Hin) in Hp. done.
Qed.

Lemma find_author_Some s pk a :
  find_author s pk = Some a → a ∈ authors s ∧ Author.id a = pk.
Proof.
  intros H. apply find_Some_elem in H as [Hin Hp].
  split; [done | by apply bool_decide_eq_true in Hp].
Qed.

Lemma find_author_None s pk : find_author s pk = None ↔ pk ∉ author_ids s.
Proof.
  unfold find_author, author_ids. rewrite find_None_elem, list_elem_of_fmap.
  split.
  - intros H (a & -> & Hin). specialize (H a Hin).
    by apply bool_decide_eq_false in H.
  - intros H a Hin. apply bool_decide_eq_false. intros <-. apply H. eauto.
Qed.

Lemma find_author_is_Some s pk :
  is_Some (find_author s pk) ↔ pk ∈ author_ids s.
Proof.
  rewrite <- not_eq_None_Some, find_author_None.
  destruct (decide (pk ∈ author_ids s)); tauto.
Qed.

(** ** Search *)

Lemma SearchFilter_no_terms {A} (column : string → A → option string)
    (search_fields : list string) (queryset : list A) :
  SearchFilter column search_fields [] queryset = queryset.
Proof. unfold SearchFilter. by rewrite orb_true_r. Qed.

Lemma elem_of_SearchFilter {A} (column : string → A → option string)
    (search_fields terms : list string) (queryset : list A) (x : A) :
  search_fields ≠ [] →
  x ∈ SearchFilter column search_fields terms queryset ↔
  x ∈ queryset ∧ search_match column search_fields terms x = true.
Proof.
  intros Hne. unfold SearchFilter.
  rewrite (bool_decide_eq_false_2 _ Hne). simpl.
  case_bool_decide as Ht.
  - subst terms. simpl. tauto.
  - rewrite list_elem_of_filter. tauto.
Qed.

Lemma SearchFilter_filter {A} (column : string → A → option string)
    (search_fields terms : list string) (queryset : list A) :
  search_fields ≠ [] →
  SearchFilter column search_fields terms queryset =
  filter (λ x, search_match column search_fields terms x = true) queryset.
Proof.
  intros Hne. unfold SearchFilter.
  rewrite (bool_decide_eq_false_2 _ Hne). simpl.
  case_bool_decide as Ht; [|done].
  subst terms. simpl. induction queryset as [|x l IH]; [done|].
  rewrite filter_cons. simpl. by rewrite <- IH.
Qed.

Lemma Author_search_match (a : Author.t) (term : string) :
  search_match Author_column AuthorViewSet.search_fields [term] a = true ↔
  contains_ci (Author.name a) term ∨ contains_ci (Author.country a) term.
Proof.
  unfold search_match. simpl. rewrite !orb_false_r, andb_true_r.
  rewrite orb_true_iff, !icontains_spec. done.
Qed.

Lemma Joined_search_match (r : Book.t * Author.t) (term : string) :
  search_match Joined_column BookViewSet.search_fields [term] r = true ↔
  contains_ci (Book.title r.1) term ∨ contains_ci (Author.name r.2) term
  ∨ contains_ci (Book.isbn r.1) term.
Proof.
  unfold search_match. simpl. rewrite !orb_false_r, andb_true_r.
  rewrite !orb_true_iff, !icontains_spec. done.
Qed.

Lemma listAuthors_Permutation (s : store) (terms : list string) :
  listAuthors s terms ≡ₚ
  filter (λ a, search_match Author_column AuthorViewSet.search_fields
                 terms a = true) (authors s).
Proof.
  unfold listAuthors, AuthorViewSet.filter_queryset.
  rewrite order_by_Permutation, SearchFilter_filter by done.
  unfold AuthorViewSet.queryset, Author_objects_all.
  by rewrite order_by_Permutation.
Qed.

Lemma listAuthors_sorted (s : store) (terms : list string) :
  StronglySorted by_name (listAuthors s terms).
Proof. by apply (order_by_ascending Author_column "name" Author.name). Qed.

Lemma filter_all {A} (P : A → Prop) `{∀ x, Decision (P x)} (l : list A) :
  (∀ x, P x) → filter P l = l.
Proof.
  intros HP. induction l as [|x l IH]; [done|].
  rewrite filter_cons, decide_True by done. by rewrite IH.
Qed.

Lemma filter_join {A B} (g : B → option A) (p : B * A → bool)
    (l : list B) :
  (filter (λ x, p x = true) (omap (λ b, pair b <$> g b) l)).*1 =
  filter (λ b, from_option (λ a, p (b, a)) false (g b) = true) l.
Proof.
  induction l as [|b l IH]; [done|].
  rewrite (filter_cons (λ b, from_option _ false (g b) = true)).
  cbn [omap list_omap].
  destruct (decide (from_option (λ a, p (b, a)) false (g b) = true))
    as [Hm|Hm]; destruct (g b) as [a|]; simpl in *; try done.
  - rewrite filter_cons, decide_True by done. rewrite fmap_cons.
    by rewrite IH.
  - rewrite filter_cons, decide_False by done. done.
Qed.

Lemma listBooks_Permutation (s : store) (terms : list string) :
  listBooks s terms ≡ₚ filter (λ b, book_matches s terms b = true) (books s).
Proof.
  unfold listBooks, BookViewSet.filter_queryset.
  rewrite order_by_Permutation, SearchFilter_filter by done.
  unfold BookViewSet.queryset, Book_objects_select_related_author.
  rewrite order_by_Permutation.
  by rewrite filter_join.
Qed.

Lemma listBooks_sorted (s : store) (terms : list string) :
  StronglySorted by_title (listBooks s terms).
Proof.
  unfold listBooks, BookViewSet.filter_queryset.
  apply StronglySorted_fmap
    with (R1 := ascending (λ r : Book.t * Author.t, Book.title r.1)).
  - by intros x y.
  - by apply (order_by_ascending Joined_column "title").
Qed.

(** ** The query layer *)

(** *** The search parameter *)

Lemma append_empty_r (w : string) : (w ++ "")%string = w.
Proof.
  induction w as [|c w IH]; [done|].
  change (String c (w ++ "")%string = String c w). by rewrite IH.
Qed.

Lemma append_snoc (w : string) (c : ascii) (w' : string) :
  ((w ++ String c "") ++ w')%string = (w ++ String c w')%string.
Proof.
  induction w as [|c0 w IH]; [done|].
  change (String c0 ((w ++ String c "") ++ w')%string
          = String c0 (w ++ String c w')%string).
  by rewrite IH.
Qed.

(** A character of a word begins no whitespace character, and is neither
    a null character nor a comma. *)
Lemma word_char_no_space (c : ascii) :
  word_char c = true →
  space1 c = false ∧ (∀ c2, space2 c c2 = false)
  ∧ (∀ c2 c3, space3 c c2 c3 = false)
  ∧ c ≠ "000"%char ∧ c ≠ ","%char.
Proof.
  destruct c as [[] [] [] [] [] [] [] []]; vm_compute; intros ?;
    done || (repeat split; intros; done).
Qed.

Lemma space_width_word (c : ascii) (w : string) :
  word_char c = true → space_width (String c w) = 0%nat.
Proof.
  intros (H1 & H2 & H3 & _)%word_char_no_space. unfold space_width.
  rewrite H1. destruct w as [|c2 w]; [done|]. rewrite H2.
  destruct w as [|c3 w]; [done|]. by rewrite H3.
Qed.

Lemma split_from_word (fuel : nat) :
  ∀ w word : string,
    (String.length w ≤ fuel)%nat →
    forallb word_char (list_ascii_of_string w) = true →
    split_from fuel w word = emit (word ++ w)%string [].
Proof.
  induction fuel as [|fuel IH]; intros w word Hlen Hw.
  - destruct w; [|simpl in Hlen; lia]. simpl. by rewrite append_empty_r.
  - destruct w as [|c w]; [simpl; by rewrite append_empty_r|].
    simpl in Hw, Hlen. apply andb_true_iff in Hw as [Hc Hw].
    cbn [split_from]. rewrite (space_width_word c w Hc).
    rewrite IH by (done || lia). by rewrite append_snoc.
Qed.

Lemma replace_word (old : ascii) (new w : string) :
  Forall (λ c, c ≠ old) (list_ascii_of_string w) → replace old new w = w.
Proof.
  induction w as [|c w IH]; [done|]. simpl.
  intros [Hc Hw]%Forall_cons. rewrite decide_False by done.
  by rewrite IH.
Qed.

Lemma get_search_terms_word (w : string) :
  single_word w → get_search_terms w = [w].
Proof.
  intros [Hne Hw]. unfold get_search_terms.
  assert (∀ old, old = "000"%char ∨ old = ","%char →
                 Forall (λ c, c ≠ old) (list_ascii_of_string w)) as Hno.
  { intros old Hold. apply Forall_forall. intros c Hc.
    assert (word_char c = true) as Hwc.
    { rewrite forallb_forall in Hw. apply Hw. by apply list_elem_of_In. }
    apply word_char_no_space in Hwc as (_ & _ & _ & ? & ?).
    by destruct Hold as [->| ->]. }
  rewrite (replace_word "000" "" w) by (apply Hno; by left).
  rewrite (replace_word "," " " w) by (apply Hno; by right).
  unfold split. rewrite split_from_word by done.
  unfold emit. by rewrite decide_False.
Qed.

Global Instance author_has_terms_dec terms a :
  Decision (author_has_terms terms a).
Proof. unfold author_has_terms. apply _. Defined.

Lemma Author_search_match_terms (terms : list string) (a : Author.t) :
  search_match Author_column AuthorViewSet.search_fields terms a = true ↔
  author_has_terms terms a.
Proof.
  unfold author_has_terms. induction terms as [|t terms IH].
  - split; [by constructor|done].
  - rewrite Forall_cons, <- IH, <- (Author_search_match a t).
    unfold search_match. simpl. rewrite !andb_true_iff. tauto.
Qed.

Lemma searchAuthors_Permutation (s : store) (params : string) :
  searchAuthors s (Some params) ≡ₚ
  filter (author_has_terms (get_search_terms params)) (authors s).
Proof.
  unfold searchAuthors. cbn [default from_option id].
  rewrite listAuthors_Permutation.
  by rewrite (list_filter_iff _ _ _
                (Author_search_match_terms (get_search_terms params))).
Qed.

(** C8, as the code has it: for every catalog state, [listAuthors] with a
    search term of plain text returns exactly the authors for which every
    word of the term (the term split at blanks and commas) occurs in the
    name or in the country, letters compared without case; for a term
    that is a single word these are exactly the authors whose name or
    country contains the term; with an empty or absent search term it
    returns all authors; and the result is always in ascending order of
    name. *)
Theorem listAuthors_search (s : store) :
  (∀ searchTerm, plain_search searchTerm →
     searchAuthors s (Some searchTerm) ≡ₚ
     filter (author_has_terms (get_search_terms searchTerm)) (authors s))
  ∧ (∀ term, single_word term →
       searchAuthors s (Some term) ≡ₚ
       filter (λ a, contains_ci (Author.name a) term
                    ∨ contains_ci (Author.country a) term) (authors s))
  ∧ searchAuthors s None ≡ₚ authors s
  ∧ searchAuthors s (Some "") ≡ₚ authors s
  ∧ (∀ searchTerm, StronglySorted by_name (searchAuthors s searchTerm)).
Proof.
  split; [|split; [|split; [|split]]].
  - intros searchTerm _. apply searchAuthors_Permutation.
  - intros term Hword. rewrite searchAuthors_Permutation.
    rewrite (get_search_terms_word term Hword).
    apply reflexive_eq, list_filter_iff. intros a.
    unfold author_has_terms. rewrite Forall_singleton. done.
  - unfold searchAuthors. cbn [default from_option id].
    change (get_search_terms "") with (@nil string).
    rewrite listAuthors_Permutation. by rewrite filter_all.
  - unfold searchAuthors. cbn [default from_option id].
    change (get_search_terms "") with (@nil string).
    rewrite listAuthors_Permutation. by rewrite filter_all.
  - intros searchTerm. apply listAuthors_sorted.
Qed.

(** C8 as stated fails: a search term with a blank in it is split, so the
    search for "carpenter uk" returns Humphrey Carpenter, although neither
    his name nor his country contains that term. *)
Lemma listAuthors_search_splits_the_term :
  searchAuthors sample (Some "carpenter uk") = [carpenter]
  ∧ ¬ contains_ci (Author.name carpenter) "carpenter uk"
  ∧ ¬ contains_ci (Author.country carpenter) "carpenter uk".
Proof.
  split; [by vm_compute|].
  rewrite <- !icontains_spec. split; by vm_compute.
Qed.

(** C5, as the code has it: for every catalog state,
    [listBooks(searchTerm="Tolkien")] returns exactly the books whose
    title, whose author's name, or whose isbn contains "Tolkien"
    case-insensitively, in ascending order of title. *)
Theorem listBooks_Tolkien (s : store) :
  (∀ b, b ∈ listBooks s ["Tolkien"] ↔
        b ∈ books s ∧
        ∃ a, find_author s (Book.author_id b) = Some a ∧
             (contains_ci (Book.title b) "Tolkien"
              ∨ contains_ci (Author.name a) "Tolkien"
              ∨ contains_ci (Book.isbn b) "Tolkien"))
  ∧ StronglySorted by_title (listBooks s ["Tolkien"]).
Proof.
  split; [|apply listBooks_sorted].
  intros b. rewrite listBooks_Permutation, list_elem_of_filter.
  unfold book_matches.
  destruct (find_author s (Book.author_id b)) as [a|]; cbn [from_option].
  - rewrite (Joined_search_match (b, a)). cbn [fst snd]. split.
    + intros [Hm Hin]. split; [done|]. by exists a.
    + intros [Hin (a' & [= <-] & Hm)]. done.
  - split; [by intros [? _] | by intros [_ (a & ? & _)]].
Qed.

(** C5 as stated fails: in the sample catalog the search for "Tolkien"
    also returns the biography, whose author is Humphrey Carpenter. *)
Lemma listBooks_Tolkien_not_only_author :
  listBooks sample ["Tolkien"] = [hobbit; biography]
  ∧ find_author sample (Book.author_id biography) = Some carpenter
  ∧ ¬ contains_ci (Author.name carpenter) "Tolkien".
Proof.
  split; [by vm_compute|]. split; [by vm_compute|].
  rewrite <- icontains_spec. by vm_compute.
Qed.

(** ** Rows under the integrity constraints *)

Lemma NoDup_fmap_eq {A B} (f : A → B) (l : list A) (x y : A) :
  NoDup (f <$> l) → x ∈ l → y ∈ l → f x = f y → x = y.
Proof.
  induction l as [|z l IH]; [by intros _ ?%elem_of_nil|].
  rewrite fmap_cons, NoDup_cons, !elem_of_cons, list_elem_of_fmap.
  intros [Hz Hl] [->|Hx] [->|Hy] Hf; [done| | |by apply IH].
  - destruct Hz; eauto.
  - destruct Hz; eauto.
Qed.

Lemma wf_author_of (s : store) (b : Book.t) :
  wf s → b ∈ books s → is_Some (find_author s (Book.author_id b)).
Proof.
  intros (_ & _ & _ & Hfk) Hb. apply find_author_is_Some.
  rewrite Forall_forall in Hfk. by apply Hfk.
Qed.

Lemma elem_of_Book_queryset (s : store) (r : Book.t * Author.t) :
  r ∈ BookViewSet.queryset s ↔
  r.1 ∈ books s ∧ find_author s (Book.author_id r.1) = Some r.2.
Proof.
  unfold BookViewSet.queryset, Book_objects_select_related_author.
  rewrite elem_of_order_by, list_elem_of_omap. destruct r as [b a]. simpl.
  split.
  - intros (b' & Hb' & Hj).
    destruct (find_author s (Book.author_id b')) eqn:Hf; simplify_eq/=. done.
  - intros [Hb Hf]. exists b. by rewrite Hf.
Qed.

Lemma BookViewSet_get_object_Some (s : store) (b : Book.t) (a : Author.t) :
  NoDup (book_ids s) → b ∈ books s →
  find_author s (Book.author_id b) = Some a →
  BookViewSet.get_object s (Book.id b) = Some (b, a).
Proof.
  intros Hnd Hb Ha. apply find_the_one.
  - by apply elem_of_Book_queryset.
  - by apply bool_decide_eq_true.
  - intros [b' a'] [Hb' Ha']%elem_of_Book_queryset Hid%bool_decide_eq_true.
    simpl in *.
    assert (b' = b) as -> by (by apply (NoDup_fmap_eq Book.id (books s))).
    congruence.
Qed.

Lemma BookViewSet_get_object_None (s : store) (pk : Z) :
  pk ∉ book_ids s → BookViewSet.get_object s pk = None.
Proof.
  intros Hpk. apply find_None_elem.
  intros [b a] [Hb _]%elem_of_Book_queryset. simpl in *.
  apply bool_decide_eq_false. intros <-. apply Hpk.
  apply list_elem_of_fmap. eauto.
Qed.

Lemma elem_of_Author_books (s : store) (a : Author.t) (b : Book.t) :
  b ∈ Author_books s a ↔ b ∈ books s ∧ Book.author_id b = Author.id a.
Proof.
  unfold Author_books. rewrite elem_of_order_by, list_elem_of_filter. tauto.
Qed.

(** ** The transfer layer *)

(** C6: the summary shape of a book has exactly the fields id, title,
    published_date and isbn, and no author; the shape of an author has
    exactly id, name, birth_date, country and books, where books lists the
    summary shapes of the books that reference the author. *)
Theorem wire_shapes (s : store) :
  (∀ b,
     BookSummarySerializer.data b =
     WObj [("id", WInt (Book.id b)); ("title", WStr (Book.title b));
           ("published_date", WDate (Book.published_date b));
           ("isbn", WStr (Book.isbn b))]
     ∧ keys (BookSummarySerializer.data b) =
       ["id"; "title"; "published_date"; "isbn"]
     ∧ member "author" (BookSummarySerializer.data b) = None)
  ∧ (∀ a,
       AuthorSerializer.data s a =
       WObj [("id", WInt (Author.id a)); ("name", WStr (Author.name a));
             ("birth_date", from_option WDate WNull (Author.birth_date a));
             ("country", WStr (Author.country a));
             ("books",
              WList (BookSummarySerializer.data <$> Author_books s a))]
       ∧ keys (AuthorSerializer.data s a) =
         ["id"; "name"; "birth_date"; "country"; "books"]
       ∧ Author_books s a ≡ₚ
         filter (λ b, Book.author_id b = Author.id a) (books s)).
Proof.
  split.
  - intros b. done.
  - intros a. split; [done|]. split; [done|].
    apply order_by_Permutation.
Qed.


Lemma sample_wf : wf sample.
Proof. by_evaluation. Qed.

(** ** Deleting an author *)

Lemma find_book_None s pk : find_book s pk = None ↔ pk ∉ book_ids s.
Proof.
  unfold find_book, book_ids. rewrite find_None_elem, list_elem_of_fmap.
  split.
  - intros H (b & -> & Hin). specialize (H b Hin).
    by apply bool_decide_eq_false in H.
  - intros H b Hin. apply bool_decide_eq_false. intros <-. apply H. eauto.
Qed.

Lemma AuthorViewSet_get_object_None (s : store) (pk : Z) :
  AuthorViewSet.get_object s pk = None ↔ pk ∉ author_ids s.
Proof.
  unfold AuthorViewSet.get_object, AuthorViewSet.queryset, Author_objects_all.
  rewrite find_None_elem. unfold author_ids. rewrite list_elem_of_fmap.
  split.
  - intros H (a & -> & Hin). specialize (H a).
    rewrite elem_of_order_by in H. specialize (H Hin).
    by apply bool_decide_eq_false in H.
  - intros H a Hin%elem_of_order_by. apply bool_decide_eq_false.
    intros <-. apply H. eauto.
Qed.

Lemma AuthorViewSet_get_object_Some (s : store) (pk : Z) (a : Author.t) :
  AuthorViewSet.get_object s pk = Some a → a ∈ authors s ∧ Author.id a = pk.
Proof.
  intros [Hin Hp]%find_Some_elem.
  unfold AuthorViewSet.queryset, Author_objects_all in Hin.
  rewrite elem_of_order_by in Hin. by apply bool_decide_eq_true in Hp.
Qed.

Lemma Author_delete_by_id (s : store) (pk : Z) :
  pk ∈ author_ids s →
  Author_delete (λ x, bool_decide (Author.id x = pk)) s =
  (Store (filter (λ a, Author.id a ≠ pk) (authors s))
         (filter (λ b, Book.author_id b ≠ pk) (books s))
         (author_seq s) (book_seq s), inr tt).
Proof.
  intros Hpk. unfold Author_delete. simpl. f_equal. f_equal.
  - apply list_filter_iff. intros a. by rewrite bool_decide_eq_false.
  - apply list_filter_iff. intros b.
    rewrite list_elem_of_fmap. split.
    + intros Hn Heq. apply Hn.
      apply list_elem_of_fmap in Hpk as (a & Hid & Ha). exists a.
      split; [congruence|]. apply list_elem_of_filter. split; [|done].
      by apply bool_decide_eq_true.
    + intros Hne (a & Hid & [Ha _]%list_elem_of_filter).
      apply bool_decide_eq_true in Ha. congruence.
Qed.

(** C1: deleting an author through the service either finds nothing and
    changes nothing, or removes the author together with every book that
    references it and nothing else; afterwards retrieving the author, or
    any book it owned, is answered with NotFound. *)
Theorem delete_author_cascades (s : store) (pk : Z) :
  wf s →
  let (s', r) := AuthorViewSet_destroy pk s in
  (NotFound r ∧ s' = s ∧ pk ∉ author_ids s)
  ∨ (r = HTTP_204 ∧ pk ∈ author_ids s
     ∧ authors s' = filter (λ a, Author.id a ≠ pk) (authors s)
     ∧ books s' = filter (λ b, Book.author_id b ≠ pk) (books s)
     ∧ NotFound (AuthorViewSet_retrieve pk s').2
     ∧ ∀ b, b ∈ books s → Book.author_id b = pk →
            (b ∉ books s')
            ∧ find_book s' (Book.id b) = None
            ∧ NotFound (BookViewSet_retrieve (Book.id b) s').2).
Proof.
  intros (_ & Hnd & _ & _). unfold AuthorViewSet_destroy.
  destruct (AuthorViewSet.get_object s pk) as [a|] eqn:Hget.
  - apply AuthorViewSet_get_object_Some in Hget as [Ha Hid]. subst pk.
    assert (Author.id a ∈ author_ids s) as Hpk
      by (by apply list_elem_of_fmap_2).
    rewrite (Author_delete_by_id s (Author.id a) Hpk).
    right. split; [done|]. split; [done|]. simpl.
    split; [done|]. split; [done|].
    set (s' := Store _ _ _ _).
    assert (∀ b, b ∈ books s → Book.author_id b = Author.id a →
                 Book.id b ∉ book_ids s') as Hgone.
    { intros b Hb Hba (b' & Hid & Hb')%list_elem_of_fmap.
      apply list_elem_of_filter in Hb' as [Hne Hb'].
      apply Hne. rewrite <- Hba. f_equal.
      by apply (NoDup_fmap_eq Book.id (books s)). }
    split.
    + unfold AuthorViewSet_retrieve, NotFound.
      assert (AuthorViewSet.get_object s' (Author.id a) = None) as ->; [|done].
      apply AuthorViewSet_get_object_None.
      intros (a' & Hid & [Hne _]%list_elem_of_filter)%list_elem_of_fmap.
      by apply Hne.
    + intros b Hb Hba. split; [|split].
      * intros [Hne _]%list_elem_of_filter. done.
      * apply find_book_None. by apply Hgone.
      * unfold BookViewSet_retrieve, NotFound.
        rewrite BookViewSet_get_object_None; [done|]. by apply Hgone.
  - left. split; [done|]. split; [done|].
    by apply AuthorViewSet_get_object_None.
Qed.

(** ** Writes that the constraints reject *)

Lemma BookSerializer_run_validation_fields (s : store) (instance : option Z)
    (partial : bool) (d : BookData.t) :
  BookSerializer_run_validation s instance partial d =
  (BookSerializer_validate_field s instance partial d "title"
   ++ BookSerializer_validate_field s instance partial d "author_id"
   ++ BookSerializer_validate_field s instance partial d "published_date"
   ++ BookSerializer_validate_field s instance partial d "isbn")%list.
Proof.
  unfold BookSerializer_run_validation, BookSerializer.fields.
  cbn [flat_map].
  assert (∀ f, f ∈ BookSerializer.read_only →
               BookSerializer_validate_field s instance partial d f = [])
    as Hro.
  { intros f Hf. unfold BookSerializer_validate_field.
    by rewrite decide_True. }
  rewrite (Hro "id"), (Hro "author") by by_evaluation.
  by rewrite app_nil_r.
Qed.

Lemma duplicate_isbn_reported (s : store) (instance : option Z)
    (partial : bool) (d : BookData.t) (data : string) :
  BookData.isbn d = Some data → strip data ≠ "" →
  Exists (λ x, Book.isbn x = strip data ∧ Some (Book.id x) ≠ instance)
         (books s) →
  ("isbn", unique) ∈ BookSerializer_run_validation s instance partial d.
Proof.
  intros Hd Hne Hdup. rewrite BookSerializer_run_validation_fields.
  rewrite !elem_of_app. do 3 right. unfold BookSerializer_validate_field.
  rewrite decide_False by by_evaluation.
  do 3 (rewrite decide_False by done). rewrite decide_True by done.
  rewrite Hd. cbv zeta. rewrite decide_False by done.
  unfold Book.isbn_unique.
  rewrite andb_true_l, bool_decide_eq_true_2 by done.
  apply elem_of_app. left. by apply list_elem_of_singleton.
Qed.


Lemma unresolved_author_id_reported (s : store) (instance : option Z)
    (partial : bool) (d : BookData.t) (pk : Z) :
  BookData.author_id d = Some pk → pk ∉ author_ids s →
  ("author_id", does_not_exist)
  ∈ BookSerializer_run_validation s instance partial d.
Proof.
  intros Hd Hpk. rewrite BookSerializer_run_validation_fields.
  rewrite !elem_of_app. right. left.
  unfold BookSerializer_validate_field.
  rewrite decide_False by by_evaluation.
  rewrite decide_False by done. rewrite decide_True by done.
  rewrite Hd. apply find_author_None in Hpk as ->. set_solver.
Qed.

(** C3: a book write whose [author_id] resolves to no author is rejected
    with ReferenceError by validation, before anything is written: the
    store is unchanged, on create and on update of an existing book. *)
Theorem book_write_unresolved_author (s : store) (d : BookData.t) (pk : Z) :
  BookData.author_id d = Some pk → pk ∉ author_ids s →
  (let (s', r) := BookViewSet_create d s in s' = s ∧ ReferenceError r)
  ∧ (∀ partial target,
       is_Some (BookViewSet.get_object s target) →
       let (s', r) := BookViewSet_update partial target d s in
       s' = s ∧ ReferenceError r).
Proof.
  intros Hd Hpk. split.
  - unfold BookViewSet_create.
    pose proof (unresolved_author_id_reported s None false d pk Hd Hpk) as He.
    destruct (BookSerializer_run_validation s None false d) as [|e detail];
      [by apply elem_of_nil in He|].
    split; [done|]. by eexists.
  - intros partial target [[b a] Hget]. unfold BookViewSet_update.
    rewrite Hget.
    pose proof (unresolved_author_id_reported s (Some (Book.id b)) partial
                  d pk Hd Hpk) as He.
    destruct (BookSerializer_run_validation s _ partial d) as [|e detail];
      [by apply elem_of_nil in He|].
    split; [done|]. by eexists.
Qed.

(** ** Creating an author *)

Lemma max_id_ge (ids : list Z) (x : Z) : x ∈ ids → (x ≤ max_id ids)%Z.
Proof.
  induction ids as [|y ids IH]; [by intros ?%elem_of_nil|].
  intros [->|Hx]%elem_of_cons; simpl; [lia|]. specialize (IH Hx). lia.
Qed.

Lemma next_author_id_fresh (s : store) : next_author_id s ∉ author_ids s.
Proof.
  intros Hin%max_id_ge. unfold next_author_id in Hin. lia.
Qed.

Lemma next_book_id_fresh (s : store) : next_book_id s ∉ book_ids s.
Proof.
  intros Hin%max_id_ge. unfold next_book_id in Hin. lia.
Qed.

Lemma AuthorSerializer_run_validation_fields (partial : bool)
    (d : AuthorData.t) :
  AuthorSerializer_run_validation partial d =
  (char_field "name" true false Author.name_max_length partial
     (AuthorData.name d)
   ++ match AuthorData.birth_date d with
      | Some (Some v) => date_field "birth_date" v
      | Some None | None => []
      end
   ++ char_field "country" false true Author.country_max_length partial
        (AuthorData.country d))%list.
Proof. unfold AuthorSerializer_run_validation. simpl. by rewrite app_nil_r. Qed.

Lemma char_field_nil (f : string) (is_required allow_blank : bool)
    (max_len : nat) (partial : bool) (v : option string) :
  char_field f is_required allow_blank max_len partial v = [] ↔
  match v with
  | Some data => (strip data = "" → allow_blank = true)
                 ∧ (char_length (strip data) ≤ max_len)%nat
  | None => is_required = true → partial = true
  end.
Proof.
  unfold char_field, missing. destruct v as [data|].
  - cbv zeta. destruct (decide (strip data = "")) as [->|Hne].
    + destruct allow_blank; simpl.
      * split; [intros _; split; [done|lia] | done].
      * split; [done | intros [H _]; by specialize (H eq_refl)].
    + destruct (decide (max_len < char_length (strip data))%nat)
        as [Hlt|Hle].
      * split; [done | intros [_ ?]; lia].
      * split; [intros _; split; [done|lia] | done].
  - destruct is_required, partial; simpl; split; try done.
    intros H. by specialize (H eq_refl).
Qed.

Lemma date_field_nil (f : string) (v : date) :
  date_field f v = [] ↔ valid_date v = true.
Proof. unfold date_field. by destruct (valid_date v). Qed.

Lemma author_valid_iff (partial : bool) (d : AuthorData.t) :
  AuthorSerializer_run_validation partial d = [] ↔
  match AuthorData.name d with
  | Some n => strip n ≠ ""
              ∧ (char_length (strip n) ≤ Author.name_max_length)%nat
  | None => partial = true
  end
  ∧ match AuthorData.birth_date d with
    | Some (Some v) => valid_date v = true
    | Some None | None => True
    end
  ∧ match AuthorData.country d with
    | Some c => (char_length (strip c) ≤ Author.country_max_length)%nat
    | None => True
    end.
Proof.
  rewrite AuthorSerializer_run_validation_fields.
  rewrite !(app_nil (A := string * code)), !char_field_nil.
  assert (match AuthorData.birth_date d with
          | Some (Some v) => date_field "birth_date" v
          | Some None | None => []
          end = []
          ↔ match AuthorData.birth_date d with
            | Some (Some v) => valid_date v = true
            | Some None | None => True
            end) as ->.
  { destruct (AuthorData.birth_date d) as [[v|]|]; [|done..].
    apply date_field_nil. }
  destruct (AuthorData.name d) as [n|], (AuthorData.country d) as [c|];
    intuition congruence.
Qed.

(** What [create] does with a payload that passes validation, while the
    key space lasts. *)
Lemma AuthorViewSet_create_ok (s : store) (d : AuthorData.t) :
  AuthorSerializer_run_validation false d = [] →
  (next_author_id s ≤ max_key)%Z →
  let a := Author.Make (next_author_id s)
             (default "" (validated_text (AuthorData.name d)))
             (default None (AuthorData.birth_date d))
             (default "" (validated_text (AuthorData.country d))) in
  let s' := Store (authors s ++ [a]) (books s) (next_author_id s)
              (book_seq s) in
  AuthorViewSet_create d s = (s', HTTP_201 (AuthorSerializer.data s' a)).
Proof.
  intros Hv Hroom. pose proof Hv as (_ & Hdate & _)%author_valid_iff.
  unfold AuthorViewSet_create, Author_objects_create. rewrite Hv.
  assert (from_option valid_date true
            (default None (AuthorData.birth_date d)) = true) as ->.
  { by destruct (AuthorData.birth_date d) as [[v|]|]. }
  cbn [negb]. by rewrite (bool_decide_eq_true_2 _ Hroom).
Qed.






(** ** The fixture loader *)

Lemma author_row_Some (e : AuthorEntry.t) (a : Author.t) :
  author_row e = Some a ↔
  AuthorEntry.id e = Some (Author.id a)
  ∧ AuthorEntry.name e = Some (Author.name a)
  ∧ AuthorEntry.birth_date e = Some (Author.birth_date a)
  ∧ AuthorEntry.country e = Some (Author.country a).
Proof.
  unfold author_row. destruct e as [[i|] [n|] [bd|] [c|]], a; simpl;
    intuition congruence.
Qed.

Lemma author_row_complete (e : AuthorEntry.t) :
  is_Some (author_row e) ↔ complete_author_entry e.
Proof.
  unfold author_row, complete_author_entry.
  destruct e as [[i|] [n|] [bd|] [c|]]; rewrite !is_Some_alt; simpl; tauto.
Qed.

Lemma book_row_complete (b : Book.t) (e : BookEntry.t) :
  book_row b e → complete_book_entry e.
Proof.
  intros (Ht & Ha & Hp & Hi). unfold complete_book_entry.
  rewrite Ht, Ha, Hp, Hi. by repeat split.
Qed.

Lemma create_authors_spec (entries : list AuthorEntry.t) :
  ∀ (dict : gmap Z Author.t) (s s' : store) r,
    create_authors entries dict s = (s', r) →
    ∃ (rows : list Author.t) (n : nat),
      authors s' = authors s ++ rows
      ∧ books s' = books s ∧ book_seq s' = book_seq s
      ∧ (n ≤ length entries)%nat
      ∧ author_row <$> take n entries = Some <$> rows
      ∧ match r with
        | inr dict' =>
            n = length entries
            ∧ dom dict' = dom dict ∪ list_to_set (Author.id <$> rows)
            ∧ (dict_ok dict → dict_ok dict')
        | inl _ => (n < length entries)%nat
        end.
Proof.
  induction entries as [|e entries IH]; intros dict s s' r Hrun.
  - injection Hrun as <- <-. exists [], 0%nat. rewrite app_nil_r.
    repeat split; [done..|set_solver|done].
  - cbn [create_authors] in Hrun. unfold bind, subscript, ret, raise in Hrun.
    assert (∀ e0, (s, @inl exn (gmap Z Author.t) e0) = (s', r) →
              ∃ (rows : list Author.t) (n : nat),
                authors s' = authors s ++ rows
                ∧ books s' = books s ∧ book_seq s' = book_seq s
                ∧ (n ≤ length (e :: entries))%nat
                ∧ author_row <$> take n (e :: entries) = Some <$> rows
                ∧ match r with
                  | inr dict' =>
                      n = length (e :: entries)
                      ∧ dom dict' =
                        dom dict ∪ list_to_set (Author.id <$> rows)
                      ∧ (dict_ok dict → dict_ok dict')
                  | inl _ => (n < length (e :: entries))%nat
                  end) as Hstop.
    { intros e0 [= <- <-]. exists [], 0%nat. rewrite app_nil_r. simpl.
      repeat split; [lia | lia]. }
    destruct (AuthorEntry.id e) as [i|] eqn:Hi; [|by eapply Hstop].
    destruct (AuthorEntry.name e) as [nm|] eqn:Hn; [|by eapply Hstop].
    destruct (AuthorEntry.birth_date e) as [bd|] eqn:Hb; [|by eapply Hstop].
    destruct (AuthorEntry.country e) as [c|] eqn:Hc; [|by eapply Hstop].
    unfold Author_objects_create in Hrun.
    destruct (negb (from_option valid_date true bd)); [by eapply Hstop|].
    destruct (negb (bool_decide (min_key ≤ i ≤ max_key)%Z));
      [by eapply Hstop|].
    destruct (decide (i ∈ author_ids s)) as [Hdup|Hnew]; [by eapply Hstop|].
    clear Hstop. set (a := Author.Make i nm bd c) in *.
    apply IH in Hrun as (rows & n & Ha & Hbk & Hseq & Hn' & Hrows & Hr).
    simpl in Ha, Hbk, Hseq.
    exists (a :: rows), (S n).
    split; [by rewrite Ha, <- app_assoc|].
    split; [done|]. split; [done|]. split; [simpl; lia|]. split.
    { change (take (S n) (e :: entries)) with (e :: take n entries).
      rewrite !fmap_cons, Hrows. f_equal.
      apply author_row_Some. by rewrite Hi, Hn, Hb, Hc. }
    destruct r as [err|dict']; [simpl; lia|].
    destruct Hr as (-> & Hdom & Hok). split; [done|]. split.
    + rewrite Hdom, dom_insert_L, fmap_cons, list_to_set_cons.
      change (Author.id a) with i. clear. set_solver.
    + intros Hd. apply Hok. intros k a' Hk.
      apply lookup_insert_Some in Hk as [[<- <-]|[_ Hk]]; [done|].
      by apply Hd.
Qed.

Lemma create_books_spec (dict : gmap Z Author.t)
    (entries : list BookEntry.t) :
  dict_ok dict →
  ∀ (s s' : store) r,
    create_books entries dict s = (s', r) →
    ∃ (rows : list Book.t) (n : nat),
      authors s' = authors s ∧ author_seq s' = author_seq s
      ∧ books s' = books s ++ rows
      ∧ (n ≤ length entries)%nat
      ∧ Forall2 book_row rows (take n entries)
      ∧ Forall (λ b, is_Some (dict !! Book.author_id b)
                     ∧ Book.author_id b ∈ author_ids s) rows
      ∧ match r with
        | inr _ => n = length entries
        | inl _ => (n < length entries)%nat
        end.
Proof.
  intros Hdict. induction entries as [|e entries IH]; intros s s' r Hrun.
  - injection Hrun as <- <-. exists [], 0%nat. rewrite app_nil_r.
    repeat split; by constructor.
  - cbn [create_books] in Hrun.
    unfold bind, subscript, lookup_author, ret, raise in Hrun.
    assert (∀ e0, (s, @inl exn unit e0) = (s', r) →
              ∃ (rows : list Book.t) (n : nat),
                authors s' = authors s ∧ author_seq s' = author_seq s
                ∧ books s' = books s ++ rows
                ∧ (n ≤ length (e :: entries))%nat
                ∧ Forall2 book_row rows (take n (e :: entries))
                ∧ Forall (λ b, is_Some (dict !! Book.author_id b)
                               ∧ Book.author_id b ∈ author_ids s) rows
                ∧ match r with
                  | inr _ => n = length (e :: entries)
                  | inl _ => (n < length (e :: entries))%nat
                  end) as Hstop.
    { intros e0 [= <- <-]. exists [], 0%nat. rewrite app_nil_r. simpl.
      repeat split; first [by constructor | lia]. }
    destruct (BookEntry.title e) as [t|] eqn:Ht; [|by eapply Hstop].
    destruct (BookEntry.author_id e) as [k|] eqn:Hk; [|by eapply Hstop].
    destruct (dict !! k) as [a|] eqn:Ha; [|by eapply Hstop].
    destruct (BookEntry.published_date e) as [pd|] eqn:Hp;
      [|by eapply Hstop].
    destruct (BookEntry.isbn e) as [i|] eqn:Hi; [|by eapply Hstop].
    unfold Book_objects_create in Hrun.
    destruct (negb (valid_date pd)); [by eapply Hstop|].
    destruct (Book.isbn_unique && bool_decide (i ∈ isbns s));
      [by eapply Hstop|].
    destruct (decide (Author.id a ∈ author_ids s)) as [Hfk|Hfk];
      [|by eapply Hstop].
    clear Hstop.
    set (b := Book.Make (next_book_id s) t (Author.id a) pd i) in *.
    apply IH in Hrun as (rows & n & Hau & Hseq & Hbk & Hn & Hrows & Hres & Hr).
    simpl in Hau, Hseq, Hbk.
    exists (b :: rows), (S n).
    split; [done|]. split; [done|].
    split; [by rewrite Hbk, <- app_assoc|].
    split; [simpl; lia|]. split; [|split].
    + change (take (S n) (e :: entries)) with (e :: take n entries).
      constructor; [|done]. unfold book_row. simpl.
      rewrite (Hdict k a Ha). done.
    + constructor.
      * simpl. rewrite (Hdict k a Ha) in *. by rewrite Ha.
      * done.
    + destruct r; simpl; lia.
Qed.

Lemma filter_none {A} (l : list A) : filter (λ _ : A, true = false) l = [].
Proof.
  induction l as [|x l IH]; [done|].
  rewrite filter_cons. by destruct (decide (true = false)).
Qed.

(** The two deletions leave both tables empty, whatever they held. *)
Lemma handle_clears (s : store) :
  bind (Book_delete (λ _, true)) (λ _, Author_delete (λ _, true)) s
  = (cleared s, inr tt).
Proof.
  unfold bind, Book_delete, Author_delete, Book.author_on_delete, cleared.
  simpl. by rewrite !filter_none.
Qed.

(** [handle], phase by phase, from the cleared store on. *)
Lemma handle_unfold (data : Fixture.t) (s : store) :
  handle data s =
  match Fixture.authors data with
  | None => (cleared s, inl (KeyError (inl "authors"%string)))
  | Some aentries =>
      match create_authors aentries ∅ (cleared s) with
      | (s1, inl e) => (s1, inl e)
      | (s1, inr dict) =>
          match Fixture.books data with
          | None => (s1, inl (KeyError (inl "books"%string)))
          | Some bentries =>
              match create_books bentries dict s1 with
              | (s2, inl e) => (s2, inl e)
              | (s2, inr _) => (s2, inr (size dict, length bentries))
              end
          end
      end
  end.
Proof.
  unfold handle. unfold bind at 1 2.
  unfold Book_delete at 1. cbn beta iota.
  unfold Author_delete, Book.author_on_delete. cbn beta iota zeta.
  cbn [authors books author_seq book_seq].
  rewrite !filter_none. cbn [filter list_filter].
  fold (cleared s).
  unfold bind, subscript, ret, raise.
  destruct (Fixture.authors data) as [aentries|]; [|done].
  destruct (create_authors aentries ∅ (cleared s)) as [s1 [e|dict]]; [done|].
  destruct (Fixture.books data) as [bentries|]; [|done].
  by destruct (create_books bentries dict s1) as [s2 [e|[]]].
Qed.

(** What a run of the loader leaves: the rows of a prefix of the document's
    authors, under the keys the document gives, and books agreeing with a
    prefix of the document's books, each referencing one of those authors;
    the prefixes are the whole lists when the run succeeds. *)
Lemma handle_spec (data : Fixture.t) (s s' : store) r :
  handle data s = (s', r) →
  ∃ na nb : nat,
    author_row <$> take na (author_entries data) = Some <$> authors s'
    ∧ Forall2 book_row (books s') (take nb (book_entries data))
    ∧ Forall (λ b, Book.author_id b ∈ author_ids s') (books s')
    ∧ ((na < length (author_entries data))%nat → books s' = [])
    ∧ match r with
      | inr _ =>
          is_Some (Fixture.authors data) ∧ is_Some (Fixture.books data)
          ∧ na = length (author_entries data)
          ∧ nb = length (book_entries data)
      | inl _ =>
          Fixture.authors data = None
          ∨ (na < length (author_entries data))%nat
          ∨ Fixture.books data = None
          ∨ (nb < length (book_entries data))%nat
      end.
Proof.
  rewrite handle_unfold. unfold author_entries, book_entries.
  destruct (Fixture.authors data) as [aentries|]; simpl.
  2:{ intros [= <- <-]. exists 0%nat, 0%nat. simpl.
      repeat split; first [by constructor | by left]. }
  destruct (create_authors aentries ∅ (cleared s)) as [s1 r1] eqn:Ha.
  apply create_authors_spec in Ha
    as (arows & na & Hau & Hbk & _ & _ & Harows & Hr1).
  simpl in Hau, Hbk.
  destruct r1 as [e|dict].
  { intros [= <- <-]. exists na, 0%nat. rewrite Hau, Hbk, take_0.
    repeat split; first [done | by constructor | by right; left]. }
  destruct Hr1 as (-> & _ & Hok).
  assert (dict_ok dict) as Hdict by (apply Hok; intros k a; by rewrite lookup_empty).
  destruct (Fixture.books data) as [bentries|]; simpl.
  2:{ intros [= <- <-]. exists (length aentries), 0%nat.
      rewrite Hau, Hbk.
      repeat split;
        first [done | lia | by constructor | by right; right; left]. }
  destruct (create_books bentries dict s1) as [s2 r2] eqn:Hb.
  apply (create_books_spec dict bentries Hdict) in Hb
    as (brows & nb & Hau2 & _ & Hbk2 & _ & Hbrows & Hfk & Hr2).
  rewrite Hbk in Hbk2. simpl in Hbk2.
  assert (author_ids s2 = author_ids s1) as Hids
    by (unfold author_ids; by rewrite Hau2).
  assert (Forall (λ b, Book.author_id b ∈ author_ids s2) brows) as Hfk2.
  { rewrite Hids. eapply Forall_impl; [exact Hfk|]. by intros b [_ ?]. }
  destruct r2 as [e|[]]; intros [= <- <-]; exists (length aentries), nb;
    rewrite Hau2, Hau, Hbk2.
  - repeat split; first [done | lia | by right; right; right].
  - subst nb. repeat split; first [done | lia | by eexists].
Qed.

Lemma handle_success (data : Fixture.t) (s s' : store) v :
  handle data s = (s', inr v) →
  author_row <$> author_entries data = Some <$> authors s'
  ∧ Forall2 book_row (books s') (book_entries data)
  ∧ Forall (λ b, Book.author_id b ∈ author_ids s') (books s').
Proof.
  intros Hrun.
  apply handle_spec in Hrun as (na & nb & Ha & Hb & Hfk & _ & _ & _ & -> & ->).
  by rewrite !firstn_all in *.
Qed.

Lemma author_rows_ids (entries : list AuthorEntry.t) :
  ∀ rows : list Author.t,
    author_row <$> entries = Some <$> rows →
    omap AuthorEntry.id entries = Author.id <$> rows.
Proof.
  induction entries as [|e entries IH]; intros [|a rows] Heq;
    try discriminate; [done|].
  rewrite !fmap_cons in Heq. injection Heq as He Heq.
  apply author_row_Some in He as (Hid & _).
  cbn [omap list_omap]. rewrite Hid, fmap_cons. f_equal. by apply IH.
Qed.

Lemma author_rows_complete (entries : list AuthorEntry.t) :
  ∀ rows : list Author.t,
    author_row <$> entries = Some <$> rows →
    Forall complete_author_entry entries.
Proof.
  induction entries as [|e entries IH]; intros [|a rows] Heq;
    try discriminate; [by constructor|].
  rewrite !fmap_cons in Heq. injection Heq as He Heq.
  constructor; [|by eapply IH].
  apply author_row_complete. by rewrite He.
Qed.

(** A document that is [loadable] is loaded to the end. *)
Lemma create_authors_ok (entries : list AuthorEntry.t) :
  ∀ (dict : gmap Z Author.t) (s : store),
    Forall loadable_author_entry entries →
    NoDup (omap AuthorEntry.id entries) →
    (∀ k, k ∈ omap AuthorEntry.id entries → k ∉ author_ids s) →
    ∃ s' dict', create_authors entries dict s = (s', inr dict').
Proof.
  induction entries as [|e entries IH]; intros dict s Hc Hnd Hfresh;
    [by eexists _, _|].
  apply Forall_cons in Hc
    as [(([i Hi] & [nm Hn] & [bd Hb] & [c Hco]) & Hkey & Hdate) Hc].
  cbn [omap list_omap] in Hnd, Hfresh. rewrite Hi in Hnd, Hfresh.
  apply NoDup_cons in Hnd as [Hi' Hnd].
  cbn [create_authors]. unfold bind, subscript, ret, raise.
  rewrite Hi, Hn, Hb, Hco. unfold Author_objects_create.
  assert (from_option valid_date true bd = true) as ->
    by (destruct bd as [d|]; [by apply Hdate|done]).
  rewrite (bool_decide_eq_true_2 _ (Hkey i Hi)). cbn [negb].
  rewrite decide_False by (apply Hfresh; by left).
  apply IH; [done..|]. intros k Hk. unfold author_ids. simpl.
  rewrite fmap_app, elem_of_app. intros [Hin|Hin].
  - by apply (Hfresh k); [right|].
  - apply list_elem_of_singleton in Hin. simpl in Hin. by subst k.
Qed.

Lemma create_books_ok (dict : gmap Z Author.t) (entries : list BookEntry.t) :
  ∀ s : store,
    Forall loadable_book_entry entries →
    NoDup (omap BookEntry.isbn entries) →
    (∀ i, i ∈ omap BookEntry.isbn entries → i ∉ isbns s) →
    Forall (λ e, ∃ k a, BookEntry.author_id e = Some k ∧ dict !! k = Some a
                        ∧ Author.id a ∈ author_ids s) entries →
    ∃ s', create_books entries dict s = (s', inr tt).
Proof.
  induction entries as [|e entries IH]; intros s Hc Hnd Hfresh Hfk;
    [by eexists|].
  apply Forall_cons in Hc as [(([t Ht] & _ & [pd Hp] & [i Hi]) & Hdate) Hc].
  apply Forall_cons in Hfk as [(k & a & Hk & Ha & Hin) Hfk].
  cbn [omap list_omap] in Hnd, Hfresh. rewrite Hi in Hnd, Hfresh.
  apply NoDup_cons in Hnd as [Hi' Hnd].
  cbn [create_books]. unfold bind, subscript, lookup_author, ret, raise.
  rewrite Ht, Hk, Ha, Hp, Hi.
  unfold Book_objects_create, Book.isbn_unique.
  rewrite (Hdate pd Hp). cbn [negb]. rewrite andb_true_l.
  rewrite bool_decide_eq_false_2 by (apply Hfresh; by left).
  rewrite decide_True by done.
  apply IH; [done..| |done].
  intros j Hj. unfold isbns. simpl.
  rewrite fmap_app, elem_of_app. intros [Hjn|Hjn].
  - by apply (Hfresh j); [right|].
  - apply list_elem_of_singleton in Hjn. simpl in Hjn. by subst j.
Qed.

Lemma loadable_handle_success (data : Fixture.t) (s : store) :
  loadable data → ∃ s' v, handle data s = (s', inr v).
Proof.
  intros ([aentries Hae] & [bentries Hbe] & Hca & Hcb & Hnda & Hndi & Hfk).
  rewrite handle_unfold. unfold author_entries, book_entries in *.
  rewrite Hae, Hbe in *. cbn [default from_option id] in *.
  destruct (create_authors_ok aentries ∅ (cleared s) Hca Hnda)
    as (s1 & dict & Hrun1).
  { intros k _. apply not_elem_of_nil. }
  rewrite Hrun1.
  apply create_authors_spec in Hrun1
    as (arows & na & Hau & Hbk & _ & _ & Harows & -> & Hdom & Hok).
  rewrite firstn_all in Harows. simpl in Hau, Hbk.
  assert (dict_ok dict) as Hdict
    by (apply Hok; intros k a; by rewrite lookup_empty).
  destruct (create_books_ok dict bentries s1 Hcb Hndi) as (s2 & Hrun2).
  { intros i _. unfold isbns. rewrite Hbk. apply not_elem_of_nil. }
  { eapply Forall_impl; [exact Hfk|]. intros e (k & Hk & Hin).
    rewrite (author_rows_ids _ _ Harows) in Hin.
    assert (k ∈ dom dict) as [a Ha]%elem_of_dom.
    { rewrite Hdom, elem_of_union, elem_of_list_to_set. by right. }
    exists k, a. split; [done|]. split; [done|].
    rewrite (Hdict k a Ha). unfold author_ids. by rewrite Hau. }
  rewrite Hrun2. by eexists _, _.
Qed.

(** C4: for every fixture document and every catalog, the loader first
    empties both tables (books, then authors), so its run is the run from
    the cleared store; what it leaves are the rows of the document's
    authors under the ids the document supplies, inserted before any book,
    and books agreeing with the document's books, each referencing one of
    those authors; all of both lists when the load succeeds.  A document
    that is [loadable] is loaded, as long as the key space has room for
    its books: the catalog is then the document's authors and the
    document's books, and nothing else.  A book entry whose [author_id] is
    not the id of an author entry of the same document makes the load
    fail, whatever the catalog held before. *)
Theorem loader_replaces_catalog (data : Fixture.t) (s : store) :
  bind (Book_delete (λ _, true)) (λ _, Author_delete (λ _, true)) s
    = (cleared s, inr tt)
  ∧ handle data s = handle data (cleared s)
  ∧ (∃ na nb : nat,
       author_row <$> take na (author_entries data)
         = Some <$> authors (handle data s).1
       ∧ Forall2 book_row (books (handle data s).1)
                 (take nb (book_entries data))
       ∧ Forall (λ b, Book.author_id b ∈ author_ids (handle data s).1)
                (books (handle data s).1)
       ∧ ((na < length (author_entries data))%nat →
          books (handle data s).1 = [])
       ∧ (∀ v, (handle data s).2 = inr v →
          na = length (author_entries data)
          ∧ nb = length (book_entries data)))
  ∧ (loadable data → room_for_books s (length (book_entries data)) →
     ∃ s' v, handle data s = (s', inr v)
       ∧ author_row <$> author_entries data = Some <$> authors s'
       ∧ Forall2 book_row (books s') (book_entries data)
       ∧ Forall (λ b, Book.author_id b ∈ author_ids s') (books s'))
  ∧ (∀ (e : BookEntry.t) (k : Z),
       e ∈ book_entries data →
       BookEntry.author_id e = Some k →
       k ∉ omap AuthorEntry.id (author_entries data) →
       ∃ err, (handle data s).2 = inl err).
Proof.
  split; [apply handle_clears|].
  split; [by rewrite !handle_unfold|].
  split; [|split].
  - destruct (handle data s) as [s' r] eqn:Hrun. cbn [fst snd].
    apply handle_spec in Hrun as (na & nb & Ha & Hb & Hfk & Hord & Hr).
    exists na, nb. do 4 (split; [done|]).
    intros v' ->. by destruct Hr as (_ & _ & ? & ?).
  - intros Hl _. destruct (loadable_handle_success data s Hl) as (s' & v & Hrun).
    exists s', v. split; [done|]. by eapply handle_success.
  - destruct (handle data s) as [s' r] eqn:Hrun. cbn [fst snd].
    intros e k He Hk Hnot. destruct r as [err|v]; [by eexists|].
    exfalso. apply Hnot.
    apply handle_success in Hrun as (Ha & Hb & Hfk).
    rewrite (author_rows_ids _ _ Ha).
    apply list_elem_of_lookup in He as [i He].
    destruct (Forall2_lookup_r _ _ _ _ _ Hb He) as (b & Hbi & Hrow).
    rewrite Forall_forall in Hfk.
    assert (Book.author_id b = k) as <-
      by (destruct Hrow as (_ & Hid & _); congruence).
    apply Hfk. by eapply list_elem_of_lookup_2.
Qed.

(** C10: the loader reads every key of every entry by subscript: when an
    author entry of the document lacks one of [id], [name], [birth_date],
    [country], or a book entry lacks one of [title], [author_id],
    [published_date], [isbn], the load fails; no field is defaulted. *)
Theorem loader_requires_all_keys (data : Fixture.t) (s : store) :
  Exists (λ e, ¬ complete_author_entry e) (author_entries data)
  ∨ Exists (λ e, ¬ complete_book_entry e) (book_entries data) →
  ∃ err, (handle data s).2 = inl err.
Proof.
  intros Hmissing.
  destruct (handle data s) as [s' [err|v]] eqn:Hrun; [by eexists|].
  exfalso. apply handle_success in Hrun as (Ha & Hb & _).
  destruct Hmissing as [Hex|Hex]; apply Exists_exists in Hex as (e & He & Hinc);
    apply Hinc.
  - apply author_rows_complete in Ha. rewrite Forall_forall in Ha.
    by apply Ha.
  - apply list_elem_of_lookup in He as [i He].
    destruct (Forall2_lookup_r _ _ _ _ _ Hb He) as (b & _ & Hrow).
    by eapply book_row_complete.
Qed.

(** * The statements at the sample data *)

Lemma delete_author_cascades_at_sample :
  wf sample
  ∧ let (s', r) := AuthorViewSet_destroy 1 sample in
    (NotFound r ∧ s' = sample ∧ 1 ∉ author_ids sample)
    ∨ (r = HTTP_204 ∧ 1 ∈ author_ids sample
       ∧ authors s' = filter (λ a, Author.id a ≠ 1) (authors sample)
       ∧ books s' = filter (λ b, Book.author_id b ≠ 1) (books sample)
       ∧ NotFound (AuthorViewSet_retrieve 1 s').2
       ∧ ∀ b, b ∈ books sample → Book.author_id b = 1 →
              (b ∉ books s')
              ∧ find_book s' (Book.id b) = None
              ∧ NotFound (BookViewSet_retrieve (Book.id b) s').2).
Proof.
  assert (wf sample) as Hwf by by_evaluation.
  split; [exact Hwf|]. exact (delete_author_cascades sample 1 Hwf).
Defined.


Lemma book_write_unresolved_author_at_sample :
  BookData.author_id orphan_data = Some 7
  ∧ (7 ∉ author_ids sample)
  ∧ (let (s', r) := BookViewSet_create orphan_data sample in
     s' = sample ∧ ReferenceError r)
  ∧ (∀ partial target,
       is_Some (BookViewSet.get_object sample target) →
       let (s', r) := BookViewSet_update partial target orphan_data sample in
       s' = sample ∧ ReferenceError r).
Proof.
  assert (7 ∉ author_ids sample) as Hnot by by_evaluation.
  split; [reflexivity|]. split; [exact Hnot|].
  exact (book_write_unresolved_author sample orphan_data 7 eq_refl Hnot).
Defined.


(** Both readings of a search at the sample catalog: a parameter of two
    words, and a single word. *)
Lemma listAuthors_search_at_sample :
  plain_search "carpenter uk"
  ∧ searchAuthors sample (Some "carpenter uk")
    ≡ₚ filter (author_has_terms (get_search_terms "carpenter uk"))
              (authors sample)
  ∧ single_word "tolk"
  ∧ searchAuthors sample (Some "tolk")
    ≡ₚ filter (λ a, contains_ci (Author.name a) "tolk"
                    ∨ contains_ci (Author.country a) "tolk")
              (authors sample).
Proof.
  assert (plain_search "carpenter uk") as Hplain by reflexivity.
  assert (single_word "tolk") as Hword by (split; [discriminate|reflexivity]).
  pose proof (listAuthors_search sample) as (Hterms & Hone & _).
  split; [exact Hplain|]. split; [exact (Hterms _ Hplain)|].
  split; [exact Hword|]. exact (Hone _ Hword).
Defined.


Lemma sample_fixture_loadable : loadable sample_fixture.
Proof.
  split; [by eexists|]. split; [by eexists|]. split; [|split].
  - apply Forall_singleton. split; [|split].
    + by repeat split; eexists.
    + intros k' [= <-]. by_evaluation.
    + by intros d' [= <-].
  - apply Forall_singleton. split.
    + by repeat split; eexists.
    + by intros d' [= <-].
  - split; [by_evaluation|]. split; [by_evaluation|].
    apply Forall_singleton. exists 1. split; [done|by_evaluation].
Qed.

(** The sample document is loaded over the sample catalog, and what is
    left are its one author and its one book.  Author 2 is in [sample],
    yet the document's book that names author 2 does not load: the
    document has no author 2. *)
Lemma loader_replaces_catalog_at_sample :
  loadable sample_fixture
  ∧ room_for_books sample (length (book_entries sample_fixture))
  ∧ (∃ s' v, handle sample_fixture sample = (s', inr v)
       ∧ author_row <$> author_entries sample_fixture = Some <$> authors s'
       ∧ Forall2 book_row (books s') (book_entries sample_fixture)
       ∧ Forall (λ b, Book.author_id b ∈ author_ids s') (books s'))
  ∧ handle sample_fixture sample = (loaded, inr (1, 1)%nat)
  ∧ biography_entry ∈ book_entries dangling_fixture
  ∧ BookEntry.author_id biography_entry = Some 2
  ∧ (2 ∉ omap AuthorEntry.id (author_entries dangling_fixture))
  ∧ 2 ∈ author_ids sample
  ∧ ∃ err, (handle dangling_fixture sample).2 = inl err.
Proof.
  assert (room_for_books sample (length (book_entries sample_fixture)))
    as Hroom by by_evaluation.
  assert (biography_entry ∈ book_entries dangling_fixture) as Hin
    by (apply list_elem_of_further, list_elem_of_here).
  assert (2 ∉ omap AuthorEntry.id (author_entries dangling_fixture)) as Hnot
    by by_evaluation.
  split; [exact sample_fixture_loadable|]. split; [exact Hroom|].
  split.
  { exact (proj1 (proj2 (proj2 (proj2
             (loader_replaces_catalog sample_fixture sample))))
             sample_fixture_loadable Hroom). }
  split; [by vm_compute|].
  split; [exact Hin|]. split; [reflexivity|]. split; [exact Hnot|].
  split; [by_evaluation|].
  exact (proj2 (proj2 (proj2 (proj2
           (loader_replaces_catalog dangling_fixture sample))))
           biography_entry 2 Hin eq_refl Hnot).
Defined.

Lemma loader_requires_all_keys_at_sample :
  (Exists (λ e, ¬ complete_author_entry e) (author_entries undated_fixture)
   ∨ Exists (λ e, ¬ complete_book_entry e) (book_entries undated_fixture))
  ∧ ∃ err, (handle undated_fixture sample).2 = inl err.
Proof.
  assert (Exists (λ e, ¬ complete_author_entry e)
                 (author_entries undated_fixture)) as Hex.
  { apply Exists_cons_hd. intros (_ & _ & [bd Hbd] & _). discriminate Hbd. }
  split; [by left|].
  exact (loader_requires_all_keys undated_fixture sample (or_introl Hex)).
Defined.

(** * More of the application *)

(** ** Which payloads pass validation *)

(** X1: an author payload of plain text passes validation exactly when
    its name is there (unless the update is partial), is not blank once
    trimmed and has then at most 255 characters, its birth date, if
    there and not null, is a date of the calendar, and its country, if
    there, has at most 100 characters once trimmed. *)
Theorem author_payload_valid (partial : bool) (d : AuthorData.t) :
  plain_author_data d →
  AuthorSerializer_run_validation partial d = [] ↔
  match AuthorData.name d with
  | Some n => strip n ≠ ""
              ∧ (char_length (strip n) ≤ Author.name_max_length)%nat
  | None => partial = true
  end
  ∧ match AuthorData.birth_date d with
    | Some (Some v) => valid_date v = true
    | Some None | None => True
    end
  ∧ match AuthorData.country d with
    | Some c => (char_length (strip c) ≤ Author.country_max_length)%nat
    | None => True
    end.
Proof. intros _. apply author_valid_iff. Qed.

Lemma BookSerializer_validate_isbn (s : store) (instance : option Z)
    (partial : bool) (d : BookData.t) :
  BookSerializer_validate_field s instance partial d "isbn" = [] ↔
  match BookData.isbn d with
  | Some i =>
      strip i ≠ "" ∧ (char_length (strip i) ≤ Book.isbn_max_length)%nat
      ∧ ∀ x, x ∈ books s → Book.isbn x = strip i →
             Some (Book.id x) = instance
  | None => partial = true
  end.
Proof.
  unfold BookSerializer_validate_field.
  rewrite decide_False by by_evaluation.
  do 3 (rewrite decide_False by done). rewrite decide_True by done.
  destruct (BookData.isbn d) as [i|].
  - cbv zeta.
    destruct (decide (strip i = "")) as [Hblank|Hne];
      [by split; [|intros [? _]]|].
    rewrite (app_nil (A := string * code)). unfold Book.isbn_unique.
    rewrite andb_true_l. case_bool_decide as Hex.
    + split; [by intros [? _]|]. intros (_ & _ & Huniq). exfalso.
      apply Exists_exists in Hex as (x & Hx & Hi & Hid). by apply Hid, Huniq.
    + destruct (decide (Book.isbn_max_length < char_length (strip i))%nat).
      * split; [by intros [_ ?]|]. intros (_ & ? & _). lia.
      * split; [|done]. intros _. split; [done|]. split; [lia|].
        intros x Hx Hi.
        destruct (decide (Some (Book.id x) = instance)) as [|Hid]; [done|].
        destruct Hex. apply Exists_exists. by exists x.
  - unfold missing. destruct partial; simpl; by split.
Qed.

Lemma book_valid_iff (s : store) (instance : option Z)
    (partial : bool) (d : BookData.t) :
  BookSerializer_run_validation s instance partial d = [] ↔
  match BookData.title d with
  | Some t => strip t ≠ ""
              ∧ (char_length (strip t) ≤ Book.title_max_length)%nat
  | None => partial = true
  end
  ∧ match BookData.author_id d with
    | Some pk => pk ∈ author_ids s
    | None => partial = true
    end
  ∧ match BookData.published_date d with
    | Some v => valid_date v = true
    | None => partial = true
    end
  ∧ match BookData.isbn d with
    | Some i =>
        strip i ≠ "" ∧ (char_length (strip i) ≤ Book.isbn_max_length)%nat
        ∧ ∀ x, x ∈ books s → Book.isbn x = strip i →
               Some (Book.id x) = instance
    | None => partial = true
    end.
Proof.
  rewrite BookSerializer_run_validation_fields.
  rewrite !(app_nil (A := string * code)), BookSerializer_validate_isbn.
  assert (BookSerializer_validate_field s instance partial d "title" =
          char_field "title" true false Book.title_max_length partial
            (BookData.title d)) as ->.
  { unfold BookSerializer_validate_field.
    rewrite decide_False by by_evaluation. by rewrite decide_True. }
  rewrite char_field_nil.
  assert (BookSerializer_validate_field s instance partial d "author_id" = []
          ↔ match BookData.author_id d with
            | Some pk => pk ∈ author_ids s
            | None => partial = true
            end) as ->.
  { unfold BookSerializer_validate_field.
    rewrite decide_False by by_evaluation.
    rewrite decide_False by done. rewrite decide_True by done.
    destruct (BookData.author_id d) as [pk|].
    - rewrite <- find_author_is_Some.
      destruct (find_author s pk); rewrite is_Some_alt; by split.
    - unfold missing. destruct partial; simpl; by split. }
  assert (BookSerializer_validate_field s instance partial d
            "published_date" = []
          ↔ match BookData.published_date d with
            | Some v => valid_date v = true
            | None => partial = true
            end) as ->.
  { unfold BookSerializer_validate_field.
    rewrite decide_False by by_evaluation.
    do 2 (rewrite decide_False by done). rewrite decide_True by done.
    destruct (BookData.published_date d) as [v|].
    - apply date_field_nil.
    - unfold missing. destruct partial; simpl; by split. }
  destruct (BookData.title d) as [t|]; intuition congruence.
Qed.

(** X2: a book payload of plain text passes validation exactly when every
    field is there (unless the update is partial), the title is not blank
    once trimmed and has then at most 255 characters, [author_id] is the
    key of an author, the published date is a date of the calendar, and
    the isbn, once trimmed, is not blank, has at most 13 characters and
    is the isbn of no book other than the one being updated. *)
Theorem book_payload_valid (s : store) (instance : option Z)
    (partial : bool) (d : BookData.t) :
  plain_book_data d →
  BookSerializer_run_validation s instance partial d = [] ↔
  match BookData.title d with
  | Some t => strip t ≠ ""
              ∧ (char_length (strip t) ≤ Book.title_max_length)%nat
  | None => partial = true
  end
  ∧ match BookData.author_id d with
    | Some pk => pk ∈ author_ids s
    | None => partial = true
    end
  ∧ match BookData.published_date d with
    | Some v => valid_date v = true
    | None => partial = true
    end
  ∧ match BookData.isbn d with
    | Some i =>
        strip i ≠ "" ∧ (char_length (strip i) ≤ Book.isbn_max_length)%nat
        ∧ ∀ x, x ∈ books s → Book.isbn x = strip i →
               Some (Book.id x) = instance
    | None => partial = true
    end.
Proof. intros _. apply book_valid_iff. Qed.

(** ** The constraints are kept *)

Lemma wf_add_author (s : store) (a : Author.t) (seq : Z) :
  wf s → Author.id a ∉ author_ids s →
  wf (Store (authors s ++ [a]) (books s) seq (book_seq s)).
Proof.
  intros (Ha & Hb & Hi & Hfk) Hfresh. unfold wf, author_ids, book_ids, isbns.
  simpl. rewrite fmap_app. split; [|split; [done|split; [done|]]].
  - apply NoDup_app. split; [done|]. split; [|apply NoDup_singleton].
    intros x Hx ->%list_elem_of_singleton. done.
  - eapply Forall_impl; [exact Hfk|]. intros b Hbk.
    apply elem_of_app. by left.
Qed.

Lemma wf_add_book (s : store) (b : Book.t) (seq : Z) :
  wf s → Book.id b ∉ book_ids s → Book.isbn b ∉ isbns s →
  Book.author_id b ∈ author_ids s →
  wf (Store (authors s) (books s ++ [b]) (author_seq s) seq).
Proof.
  intros (Ha & Hb & Hi & Hfk) Hid Hisbn Hau.
  unfold wf, author_ids, book_ids, isbns. simpl. rewrite !fmap_app.
  split; [done|]. split; [|split].
  - apply NoDup_app. split; [done|]. split; [|apply NoDup_singleton].
    intros x Hx ->%list_elem_of_singleton. done.
  - apply NoDup_app. split; [done|]. split; [|apply NoDup_singleton].
    intros x Hx ->%list_elem_of_singleton. done.
  - apply Forall_app. split; [done|]. by constructor.
Qed.

Lemma NoDup_fmap_filter {A B} (f : A → B) (P : A → Prop)
    `{∀ x, Decision (P x)} (l : list A) :
  NoDup (f <$> l) → NoDup (f <$> filter P l).
Proof.
  induction l as [|x l IH]; [done|].
  rewrite fmap_cons, NoDup_cons. intros [Hx Hl].
  rewrite filter_cons. destruct (decide (P x)); [|by apply IH].
  rewrite fmap_cons, NoDup_cons. split; [|by apply IH].
  intros (y & Hy & [_ Hin]%list_elem_of_filter)%list_elem_of_fmap.
  apply Hx, list_elem_of_fmap. eauto.
Qed.

Lemma wf_Book_delete (s : store) (sel : Book.t → bool) :
  wf s → wf (Book_delete sel s).1.
Proof.
  intros (Ha & Hb & Hi & Hfk). unfold wf, author_ids, book_ids, isbns.
  simpl. split; [done|]. split; [|split].
  - by apply NoDup_fmap_filter.
  - by apply NoDup_fmap_filter.
  - rewrite Forall_forall in Hfk. apply Forall_forall.
    intros b [_ Hb']%list_elem_of_filter. by apply Hfk.
Qed.

Lemma wf_Author_delete (s : store) (sel : Author.t → bool) :
  wf s → wf (Author_delete sel s).1.
Proof.
  intros (Ha & Hb & Hi & Hfk). unfold Author_delete, Book.author_on_delete.
  unfold wf, author_ids, book_ids, isbns. simpl.
  split; [by apply NoDup_fmap_filter|].
  split; [by apply NoDup_fmap_filter|].
  split; [by apply NoDup_fmap_filter|].
  rewrite Forall_forall in Hfk. apply Forall_forall.
  intros b [Hkeep Hb']%list_elem_of_filter.
  specialize (Hfk b Hb'). apply list_elem_of_fmap in Hfk as (a & Hid & Hain).
  apply list_elem_of_fmap. exists a. split; [done|].
  apply list_elem_of_filter. split; [|done].
  destruct (sel a) eqn:Hsel; [|done]. destruct Hkeep.
  apply list_elem_of_fmap. exists a. split; [done|].
  by apply list_elem_of_filter.
Qed.

Lemma Author_save_ids (s : store) (a : Author.t) :
  author_ids (Author_save a s).1 = author_ids s.
Proof.
  unfold author_ids. simpl. rewrite <- list_fmap_compose.
  apply list_fmap_ext. intros i x _. simpl.
  by destruct (decide (Author.id x = Author.id a)).
Qed.

Lemma wf_Author_save (s : store) (a : Author.t) :
  wf s → wf (Author_save a s).1.
Proof.
  intros (Ha & Hb & Hi & Hfk). unfold wf. rewrite Author_save_ids.
  done.
Qed.

(** Rewriting the row of one key keeps a column free of duplicates when no
    other row holds the new value. *)
Lemma NoDup_fmap_replace {A B} (key : A → Z) (f : A → B) (b : A)
    (l : list A) :
  NoDup (key <$> l) → NoDup (f <$> l) →
  (∀ x, x ∈ l → f x = f b → key x = key b) →
  NoDup (f <$> ((λ x, if decide (key x = key b) then b else x) <$> l)).
Proof.
  induction l as [|x l IH]; [done|].
  rewrite !fmap_cons, !NoDup_cons. intros [Hkx Hk] [Hfx Hf] Hother.
  split.
  - intros (y' & Heq & (y & -> & Hy)%list_elem_of_fmap)%list_elem_of_fmap.
    assert (key y ≠ key x) as Hne.
    { intros Hyx. apply Hkx, list_elem_of_fmap. eauto. }
    destruct (decide (key x = key b)) as [Hxb|Hxb];
      destruct (decide (key y = key b)) as [Hyb|Hyb]; try congruence.
    + apply Hyb, Hother; [by right|done].
    + apply Hxb, Hother; [by left|done].
    + apply Hfx, list_elem_of_fmap. eauto.
  - apply IH; [done..|]. intros y Hy. apply Hother. by right.
Qed.

Lemma Book_save_ok (s : store) (b : Book.t) :
  (∀ x, x ∈ books s → Book.isbn x = Book.isbn b → Book.id x = Book.id b) →
  Book.author_id b ∈ author_ids s →
  Book_save b s =
  (Store (authors s)
         ((λ x, if decide (Book.id x = Book.id b) then b else x) <$> books s)
         (author_seq s) (book_seq s), inr tt).
Proof.
  intros Huniq Hau. unfold Book_save. unfold Book.isbn_unique.
  rewrite andb_true_l. rewrite bool_decide_eq_false_2.
  - by rewrite decide_True.
  - intros (x & Hx & Hi & Hid)%Exists_exists. by apply Hid, Huniq.
Qed.

Lemma wf_Book_save (s : store) (b : Book.t) :
  wf s → wf (Book_save b s).1.
Proof.
  intros Hwf. pose proof Hwf as (Ha & Hb & Hi & Hfk). unfold Book_save.
  unfold Book.isbn_unique. rewrite andb_true_l.
  case_bool_decide as Hex; [done|].
  destruct (decide (Book.author_id b ∈ author_ids s)) as [Hau|]; [|done].
  simpl. unfold wf, author_ids, book_ids, isbns. simpl.
  split; [done|]. split; [|split].
  - rewrite <- list_fmap_compose.
    erewrite list_fmap_ext; [exact Hb|]. intros i x _. simpl.
    by destruct (decide (Book.id x = Book.id b)).
  - apply NoDup_fmap_replace; [done..|]. intros x Hx Hisbn.
    destruct (decide (Book.id x = Book.id b)) as [|Hne]; [done|].
    destruct Hex. apply Exists_exists. by exists x.
  - apply Forall_fmap. eapply Forall_impl; [exact Hfk|]. intros x Hx. simpl.
    by destruct (decide (Book.id x = Book.id b)).
Qed.

(** ** What each write does *)

Lemma BookViewSet_get_object_elem (s : store) (pk : Z) (b : Book.t)
    (a : Author.t) :
  BookViewSet.get_object s pk = Some (b, a) →
  b ∈ books s ∧ find_author s (Book.author_id b) = Some a ∧ Book.id b = pk.
Proof.
  intros [Hin Hp]%find_Some_elem.
  apply elem_of_Book_queryset in Hin as [Hb Ha].
  by apply bool_decide_eq_true in Hp.
Qed.

Lemma AuthorViewSet_get_object_elem (s : store) (a : Author.t) :
  NoDup (author_ids s) → a ∈ authors s →
  AuthorViewSet.get_object s (Author.id a) = Some a.
Proof.
  intros Hnd Ha. apply find_the_one.
  - unfold AuthorViewSet.queryset, Author_objects_all.
    by rewrite elem_of_order_by.
  - by apply bool_decide_eq_true.
  - intros y Hy Hid%bool_decide_eq_true.
    unfold AuthorViewSet.queryset, Author_objects_all in Hy.
    rewrite elem_of_order_by in Hy.
    by apply (NoDup_fmap_eq Author.id (authors s)).
Qed.

Lemma BookViewSet_create_ok (s : store) (d : BookData.t) :
  BookSerializer_run_validation s None false d = [] →
  ∃ t a pd i,
    BookData.title d = Some t ∧ BookData.author_id d = Some (Author.id a)
    ∧ BookData.published_date d = Some pd ∧ BookData.isbn d = Some i
    ∧ a ∈ authors s ∧ (strip i ∉ isbns s)
    ∧ let b := Book.Make (next_book_id s) (strip t) (Author.id a) pd
                 (strip i) in
      let s' := Store (authors s) (books s ++ [b]) (author_seq s)
                  (next_book_id s) in
      BookViewSet_create d s = (s', HTTP_201 (BookSerializer.data s' (b, a))).
Proof.
  intros Hv. pose proof Hv as (Ht & Ha & Hp & Hi)%book_valid_iff.
  unfold BookViewSet_create, resolve_author, validated_text. rewrite Hv.
  destruct (BookData.title d) as [t|]; [|done].
  destruct (BookData.author_id d) as [pk|]; [|done].
  destruct (BookData.published_date d) as [pd|]; [|done].
  destruct (BookData.isbn d) as [i|]; [|done].
  apply find_author_is_Some in Ha as [a Ha].
  cbn [mbind option_bind fmap option_fmap option_map].
  rewrite Ha. apply find_author_Some in Ha as [Hain <-].
  destruct Hi as (_ & _ & Huniq).
  assert (strip i ∉ isbns s) as Hfresh.
  { intros (x & Hx' & Hx)%list_elem_of_fmap.
    by specialize (Huniq x Hx (eq_sym Hx')). }
  exists t, a, pd, i. do 6 (split; [done|]).
  unfold Book_objects_create, Book.isbn_unique.
  rewrite Hp. cbn [negb].
  rewrite andb_true_l, (bool_decide_eq_false_2 _ Hfresh).
  rewrite decide_True; [done|]. by apply list_elem_of_fmap_2.
Qed.

Lemma BookViewSet_update_ok (s : store) (partial : bool) (pk : Z)
    (d : BookData.t) (b : Book.t) (a : Author.t) :
  NoDup (isbns s) →
  BookViewSet.get_object s pk = Some (b, a) →
  BookSerializer_run_validation s (Some (Book.id b)) partial d = [] →
  let a' := default a (resolve_author s d) in
  let b' := Book.Make (Book.id b)
              (default (Book.title b) (validated_text (BookData.title d)))
              (Author.id a')
              (default (Book.published_date b) (BookData.published_date d))
              (default (Book.isbn b) (validated_text (BookData.isbn d))) in
  let s' := Store (authors s)
              ((λ x, if decide (Book.id x = Book.id b) then b' else x)
                 <$> books s)
              (author_seq s) (book_seq s) in
  a' ∈ authors s
  ∧ BookViewSet_update partial pk d s
    = (s', HTTP_200 (BookSerializer.data s' (b', a'))).
Proof.
  intros Hnd Hget Hv a' b' s'.
  pose proof Hv as (_ & Ha & _ & Hi)%book_valid_iff.
  apply BookViewSet_get_object_elem in Hget as Hrow.
  destruct Hrow as (Hb & Hfa & Hid).
  assert (a' ∈ authors s) as Ha'.
  { unfold a', resolve_author. destruct (BookData.author_id d) as [k|].
    - apply find_author_is_Some in Ha as [x Hx]. cbn [mbind option_bind].
      rewrite Hx. by apply find_author_Some in Hx as [? _].
    - by apply find_author_Some in Hfa as [? _]. }
  split; [done|]. unfold BookViewSet_update. rewrite Hget, Hv.
  fold a'. fold b'. rewrite (Book_save_ok s b'); [done| |].
  - intros x Hx Hisbn. unfold b' in Hisbn. cbn in Hisbn.
    destruct (BookData.isbn d) as [i|]; cbn in Hisbn.
    + destruct Hi as (_ & _ & Huniq). specialize (Huniq x Hx Hisbn).
      by injection Huniq.
    + change (Book.id x = Book.id b). f_equal.
      by apply (NoDup_fmap_eq Book.isbn (books s)).
  - change (Author.id a' ∈ Author.id <$> authors s).
    by apply list_elem_of_fmap_2.
Qed.

Lemma router_wf (r : api_request) (s : store) : wf s → wf (router r s).1.
Proof.
  intros Hwf.
  destruct r as [[terms|d|pk|pk d|pk d|pk]|[terms|d|pk|pk d|pk d|pk]];
    cbn [router AuthorViewSet_as_view BookViewSet_as_view].
  - done.
  - unfold AuthorViewSet_create, Author_objects_create.
    destruct (AuthorSerializer_run_validation false d); [|done].
    destruct (negb (from_option valid_date true _)); [done|].
    destruct (negb (bool_decide _)); [done|].
    apply wf_add_author; [done|]. apply next_author_id_fresh.
  - unfold AuthorViewSet_retrieve. by destruct (AuthorViewSet.get_object s pk).
  - unfold AuthorViewSet_update.
    destruct (AuthorViewSet.get_object s pk); [|done].
    destruct (AuthorSerializer_run_validation false d); [|done].
    by apply wf_Author_save.
  - unfold AuthorViewSet_update.
    destruct (AuthorViewSet.get_object s pk); [|done].
    destruct (AuthorSerializer_run_validation true d); [|done].
    by apply wf_Author_save.
  - unfold AuthorViewSet_destroy.
    destruct (AuthorViewSet.get_object s pk) as [a|]; [|done].
    pose proof (wf_Author_delete s
                  (λ x, bool_decide (Author.id x = Author.id a)) Hwf) as H.
    by destruct (Author_delete _ s) as [s' [e|[]]].
  - done.
  - destruct (BookSerializer_run_validation s None false d) eqn:Hv.
    + apply BookViewSet_create_ok in Hv
        as (t & a & pd & i & _ & _ & _ & _ & Ha & Hi & ->).
      apply wf_add_book; [done|apply next_book_id_fresh|done|].
      by apply (list_elem_of_fmap_2 Author.id).
    + unfold BookViewSet_create. by rewrite Hv.
  - unfold BookViewSet_retrieve. by destruct (BookViewSet.get_object s pk).
  - unfold BookViewSet_update.
    destruct (BookViewSet.get_object s pk) as [[b a]|]; [|done].
    destruct (BookSerializer_run_validation s _ false d); [|done].
    match goal with |- context [Book_save ?b' s] =>
      pose proof (wf_Book_save s b' Hwf) as H;
      by destruct (Book_save b' s) as [s' [e|[]]] end.
  - unfold BookViewSet_update.
    destruct (BookViewSet.get_object s pk) as [[b a]|]; [|done].
    destruct (BookSerializer_run_validation s _ true d); [|done].
    match goal with |- context [Book_save ?b' s] =>
      pose proof (wf_Book_save s b' Hwf) as H;
      by destruct (Book_save b' s) as [s' [e|[]]] end.
  - unfold BookViewSet_destroy.
    destruct (BookViewSet.get_object s pk) as [[b a]|]; [|done].
    by apply wf_Book_delete.
Qed.

(** X3: whatever requests the service has answered, starting from a catalog
    that satisfies the database's constraints, the catalog satisfies
    them: keys and isbns are unique and every book has its author. *)
Theorem serve_keeps_constraints (requests : list api_request) (s : store) :
  wf s → wf (serve requests s).
Proof.
  revert s. induction requests as [|r requests IH]; intros s Hwf; [done|].
  apply IH. by apply router_wf.
Qed.

(** X4: a request that passes validation is never refused by the
    database: on a catalog that satisfies the constraints no request of
    plain text, with its keys in the key space and, for a create, a key
    left to give, is answered with a server error. *)
Theorem router_never_fails (r : api_request) (s : store) :
  wf s → plain_request s r → ∀ e, (router r s).2 ≠ HTTP_500 e.
Proof.
  intros Hwf Hplain e.
  destruct r as [[terms|d|pk|pk d|pk d|pk]|[terms|d|pk|pk d|pk d|pk]];
    cbn [router AuthorViewSet_as_view BookViewSet_as_view].
  - done.
  - destruct Hplain as [_ Hroom].
    destruct (AuthorSerializer_run_validation false d) eqn:Hv.
    + by rewrite (AuthorViewSet_create_ok s d Hv Hroom).
    + unfold AuthorViewSet_create. by rewrite Hv.
  - unfold AuthorViewSet_retrieve. by destruct (AuthorViewSet.get_object s pk).
  - unfold AuthorViewSet_update.
    destruct (AuthorViewSet.get_object s pk); [|done].
    by destruct (AuthorSerializer_run_validation false d).
  - unfold AuthorViewSet_update.
    destruct (AuthorViewSet.get_object s pk); [|done].
    by destruct (AuthorSerializer_run_validation true d).
  - unfold AuthorViewSet_destroy.
    by destruct (AuthorViewSet.get_object s pk).
  - done.
  - destruct (BookSerializer_run_validation s None false d) eqn:Hv.
    + by apply BookViewSet_create_ok in Hv
        as (t & a & pd & i & _ & _ & _ & _ & _ & _ & ->).
    + unfold BookViewSet_create. by rewrite Hv.
  - unfold BookViewSet_retrieve. by destruct (BookViewSet.get_object s pk).
  - destruct (BookViewSet.get_object s pk) as [[b a]|] eqn:Hget.
    + destruct (BookSerializer_run_validation s (Some (Book.id b)) false d)
        eqn:Hv.
      * destruct Hwf as (_ & _ & Hnd & _).
        by destruct (BookViewSet_update_ok s false pk d b a Hnd Hget Hv)
          as [_ ->].
      * unfold BookViewSet_update. by rewrite Hget, Hv.
    + unfold BookViewSet_update. by rewrite Hget.
  - destruct (BookViewSet.get_object s pk) as [[b a]|] eqn:Hget.
    + destruct (BookSerializer_run_validation s (Some (Book.id b)) true d)
        eqn:Hv.
      * destruct Hwf as (_ & _ & Hnd & _).
        by destruct (BookViewSet_update_ok s true pk d b a Hnd Hget Hv)
          as [_ ->].
      * unfold BookViewSet_update. by rewrite Hget, Hv.
    + unfold BookViewSet_update. by rewrite Hget.
  - unfold BookViewSet_destroy.
    by destruct (BookViewSet.get_object s pk) as [[b a]|].
Qed.

(** X5: a request that is refused writes nothing: whenever the answer is 400,
    404 or a server error, the catalog is the one before the request. *)
Theorem refused_request_writes_nothing (r : api_request) (s : store) :
  match (router r s).2 with
  | HTTP_400 _ | HTTP_404 | HTTP_500 _ => (router r s).1 = s
  | HTTP_200 _ | HTTP_201 _ | HTTP_204 => True
  end.
Proof.
  destruct r as [[terms|d|pk|pk d|pk d|pk]|[terms|d|pk|pk d|pk d|pk]];
    cbn [router AuthorViewSet_as_view BookViewSet_as_view].
  - done.
  - unfold AuthorViewSet_create, Author_objects_create.
    destruct (AuthorSerializer_run_validation false d); [|done].
    destruct (negb (from_option valid_date true _)); [done|].
    by destruct (negb (bool_decide _)).
  - unfold AuthorViewSet_retrieve. by destruct (AuthorViewSet.get_object s pk).
  - unfold AuthorViewSet_update.
    destruct (AuthorViewSet.get_object s pk); [|done].
    by destruct (AuthorSerializer_run_validation false d).
  - unfold AuthorViewSet_update.
    destruct (AuthorViewSet.get_object s pk); [|done].
    by destruct (AuthorSerializer_run_validation true d).
  - unfold AuthorViewSet_destroy.
    by destruct (AuthorViewSet.get_object s pk).
  - done.
  - unfold BookViewSet_create.
    destruct (BookSerializer_run_validation s None false d); [|done].
    destruct (validated_text (BookData.title d)), (resolve_author s d),
      (BookData.published_date d), (validated_text (BookData.isbn d));
      try done.
    unfold Book_objects_create. destruct (negb (valid_date _)); [done|].
    destruct (Book.isbn_unique && _); [done|]. by destruct (decide _).
  - unfold BookViewSet_retrieve. by destruct (BookViewSet.get_object s pk).
  - unfold BookViewSet_update.
    destruct (BookViewSet.get_object s pk) as [[b a]|]; [|done].
    destruct (BookSerializer_run_validation s _ false d); [|done].
    unfold Book_save.
    destruct (Book.isbn_unique && _); [done|]. by destruct (decide _).
  - unfold BookViewSet_update.
    destruct (BookViewSet.get_object s pk) as [[b a]|]; [|done].
    destruct (BookSerializer_run_validation s _ true d); [|done].
    unfold Book_save.
    destruct (Book.isbn_unique && _); [done|]. by destruct (decide _).
  - unfold BookViewSet_destroy.
    by destruct (BookViewSet.get_object s pk) as [[b a]|].
Qed.

(** ** Round trips *)

Lemma find_author_elem (s : store) (a : Author.t) :
  NoDup (author_ids s) → a ∈ authors s →
  find_author s (Author.id a) = Some a.
Proof.
  intros Hnd Ha. apply find_the_one; [done|by apply bool_decide_eq_true|].
  intros y Hy Hid%bool_decide_eq_true.
  by apply (NoDup_fmap_eq Author.id (authors s)).
Qed.

Lemma book_count_filter (s : store) (a : Author.t) :
  AuthorAdmin.book_count s a =
  length (filter (λ b, Book.author_id b = Author.id a) (books s)).
Proof.
  unfold AuthorAdmin.book_count, Author_books.
  by rewrite order_by_Permutation.
Qed.

(** X6: creating a book from a valid payload of plain text, while a key
    is left to give, answers 201 with the book under a fresh key, its
    submitted columns, the texts trimmed, and its author nested;
    retrieving that key returns the same body; the author's book list now
    holds the book and the author's book count has grown by one. *)
Theorem book_round_trip (s : store) (d : BookData.t) :
  wf s → plain_book_data d → (next_book_id s ≤ max_key)%Z →
  BookSerializer_run_validation s None false d = [] →
  ∃ (b : Book.t) (a : Author.t) (s' : store),
    BookViewSet_create d s = (s', HTTP_201 (BookSerializer.data s' (b, a)))
    ∧ BookViewSet_retrieve (Book.id b) s'
      = (s', HTTP_200 (BookSerializer.data s' (b, a)))
    ∧ (Book.id b ∉ book_ids s)
    ∧ strip <$> BookData.title d = Some (Book.title b)
    ∧ BookData.author_id d = Some (Book.author_id b)
    ∧ BookData.published_date d = Some (Book.published_date b)
    ∧ strip <$> BookData.isbn d = Some (Book.isbn b)
    ∧ find_author s (Book.author_id b) = Some a
    ∧ authors s' = authors s ∧ books s' = books s ++ [b]
    ∧ b ∈ Author_books s' a
    ∧ AuthorAdmin.book_count s' a = S (AuthorAdmin.book_count s a).
Proof.
  intros Hwf _ _ Hv. pose proof Hwf as (Hnda & Hndb & Hndi & Hfk).
  destruct (BookViewSet_create_ok s d Hv)
    as (t & a & pd & i & Ht & Ha & Hp & Hi & Hain & Hfresh & Hcreate).
  set (b := Book.Make (next_book_id s) (strip t) (Author.id a) pd (strip i))
    in *.
  set (s' := Store (authors s) (books s ++ [b]) (author_seq s)
               (next_book_id s)) in *.
  assert (wf s') as Hwf'.
  { apply wf_add_book; [done|apply next_book_id_fresh|done|].
    by apply (list_elem_of_fmap_2 Author.id). }
  assert (find_author s (Author.id a) = Some a) as Hfind
    by (by apply find_author_elem).
  exists b, a, s'. split; [done|]. split.
  { unfold BookViewSet_retrieve.
    rewrite (BookViewSet_get_object_Some s' b a); [done| | |done].
    - by destruct Hwf' as (_ & ? & _).
    - simpl. apply elem_of_app. right. by apply list_elem_of_singleton. }
  split; [apply next_book_id_fresh|].
  split; [by rewrite Ht|]. split; [done|]. split; [done|].
  split; [by rewrite Hi|]. do 3 (split; [done|]). split.
  - apply elem_of_Author_books. split; [|done].
    simpl. apply elem_of_app. right. by apply list_elem_of_singleton.
  - rewrite !book_count_filter. simpl. rewrite filter_app, length_app.
    rewrite filter_cons, decide_True by done. simpl. lia.
Qed.

Lemma AuthorViewSet_update_ok (s : store) (partial : bool) (a : Author.t)
    (d : AuthorData.t) :
  NoDup (author_ids s) → a ∈ authors s →
  AuthorSerializer_run_validation partial d = [] →
  let a' := Author.Make (Author.id a)
              (default (Author.name a) (validated_text (AuthorData.name d)))
              (default (Author.birth_date a) (AuthorData.birth_date d))
              (default (Author.country a)
                       (validated_text (AuthorData.country d))) in
  let s' := Store ((λ x, if decide (Author.id x = Author.id a) then a' else x)
                     <$> authors s)
              (books s) (author_seq s) (book_seq s) in
  AuthorViewSet_update partial (Author.id a) d s
  = (s', HTTP_200 (AuthorSerializer.data s' a')).
Proof.
  intros Hnd Ha Hv. unfold AuthorViewSet_update.
  rewrite (AuthorViewSet_get_object_elem s a Hnd Ha), Hv. done.
Qed.

(** X7: updating an author with a valid payload of plain text answers
    200 with the author under the same key, each submitted field
    replaced, the texts trimmed, and every other field kept; retrieving
    the key returns the same body; the books of the author, the other
    authors and all keys are as before. *)
Theorem author_update_round_trip (s : store) (partial : bool)
    (a : Author.t) (d : AuthorData.t) :
  wf s → a ∈ authors s → plain_author_data d →
  AuthorSerializer_run_validation partial d = [] →
  ∃ (a' : Author.t) (s' : store),
    AuthorViewSet_update partial (Author.id a) d s
    = (s', HTTP_200 (AuthorSerializer.data s' a'))
    ∧ AuthorViewSet_retrieve (Author.id a) s'
      = (s', HTTP_200 (AuthorSerializer.data s' a'))
    ∧ a' = Author.Make (Author.id a)
             (default (Author.name a) (strip <$> AuthorData.name d))
             (default (Author.birth_date a) (AuthorData.birth_date d))
             (default (Author.country a) (strip <$> AuthorData.country d))
    ∧ books s' = books s
    ∧ Author_books s' a' = Author_books s a
    ∧ author_ids s' = author_ids s
    ∧ ∀ x, x ∈ authors s → Author.id x ≠ Author.id a → x ∈ authors s'.
Proof.
  intros (Hnd & _) Ha _ Hv.
  pose proof (AuthorViewSet_update_ok s partial a d Hnd Ha Hv) as Hup.
  cbv zeta in Hup.
  set (a' := Author.Make (Author.id a) _ _ _) in *.
  set (s' := Store _ _ _ _) in *.
  assert (author_ids s' = author_ids s) as Hids
    by apply (Author_save_ids s a').
  exists a', s'. split; [done|]. split.
  { unfold AuthorViewSet_retrieve.
    assert (AuthorViewSet.get_object s' (Author.id a) = Some a') as ->;
      [|done].
    apply (AuthorViewSet_get_object_elem s' a'); [by rewrite Hids|].
    simpl. apply list_elem_of_fmap. exists a. by rewrite decide_True. }
  do 4 (split; [done|]).
  intros x Hx Hne. simpl. apply list_elem_of_fmap. exists x.
  by rewrite decide_False.
Qed.

Lemma BookViewSet_update_wf (s : store) (partial : bool) (pk : Z)
    (d : BookData.t) :
  wf s → wf (BookViewSet_update partial pk d s).1.
Proof.
  destruct partial.
  - apply (router_wf (api_books (PATCH_partial_update pk d))).
  - apply (router_wf (api_books (PUT_update pk d))).
Qed.

(** X8: updating a book with a valid payload of plain text answers 200
    with the book under the same key, each submitted field replaced, the
    texts trimmed, and every other field kept, nested in the author it
    now references; retrieving the key returns the same body; the
    authors, the other books and all keys are as before. *)
Theorem book_update_round_trip (s : store) (partial : bool) (b : Book.t)
    (d : BookData.t) :
  wf s → b ∈ books s → plain_book_data d →
  BookSerializer_run_validation s (Some (Book.id b)) partial d = [] →
  ∃ (b' : Book.t) (a' : Author.t) (s' : store),
    BookViewSet_update partial (Book.id b) d s
    = (s', HTTP_200 (BookSerializer.data s' (b', a')))
    ∧ BookViewSet_retrieve (Book.id b) s'
      = (s', HTTP_200 (BookSerializer.data s' (b', a')))
    ∧ b' = Book.Make (Book.id b)
             (default (Book.title b) (strip <$> BookData.title d))
             (default (Book.author_id b) (BookData.author_id d))
             (default (Book.published_date b) (BookData.published_date d))
             (default (Book.isbn b) (strip <$> BookData.isbn d))
    ∧ find_author s (Book.author_id b') = Some a'
    ∧ authors s' = authors s
    ∧ book_ids s' = book_ids s
    ∧ b' ∈ Author_books s' a'
    ∧ ∀ x, x ∈ books s → Book.id x ≠ Book.id b → x ∈ books s'.
Proof.
  intros Hwf Hb _ Hv. pose proof Hwf as (Hnda & Hndb & Hndi & Hfk).
  destruct (wf_author_of s b Hwf Hb) as [a Ha].
  pose proof (BookViewSet_get_object_Some s b a Hndb Hb Ha) as Hget.
  pose proof (BookViewSet_update_wf s partial (Book.id b) d Hwf) as Hwf'.
  destruct (BookViewSet_update_ok s partial (Book.id b) d b a Hndi Hget Hv)
    as [Ha' Hup].
  rewrite Hup in Hwf'. cbn [fst] in Hwf'.
  set (a' := default a (resolve_author s d)) in *.
  set (b' := Book.Make (Book.id b) _ (Author.id a') _ _) in *.
  set (s' := Store _ _ _ _) in *.
  assert (find_author s (Author.id a') = Some a') as Hfind
    by (by apply find_author_elem).
  assert (Author.id a' = default (Book.author_id b) (BookData.author_id d))
    as Hid.
  { pose proof Hv as (_ & Hk & _)%book_valid_iff.
    unfold a', resolve_author. destruct (BookData.author_id d) as [k|].
    - cbn [mbind option_bind default].
      apply find_author_is_Some in Hk as [x Hx]. rewrite Hx.
      by apply find_author_Some in Hx as [_ ?].
    - by apply find_author_Some in Ha as [_ ?]. }
  assert (b' ∈ books s') as Hb'.
  { simpl. apply list_elem_of_fmap. exists b. by rewrite decide_True. }
  exists b', a', s'. split; [done|]. split.
  { unfold BookViewSet_retrieve.
    assert (BookViewSet.get_object s' (Book.id b) = Some (b', a')) as ->;
      [|done].
    apply (BookViewSet_get_object_Some s' b' a'); [|done|done].
    by destruct Hwf' as (_ & ? & _). }
  split; [unfold b'; by rewrite Hid|]. split; [done|]. split; [done|].
  split.
  { unfold book_ids. simpl. rewrite <- list_fmap_compose.
    apply list_fmap_ext. intros i x _. simpl.
    by destruct (decide (Book.id x = Book.id b)). }
  split; [by apply elem_of_Author_books|].
  intros x Hx Hne. simpl. apply list_elem_of_fmap. exists x.
  by rewrite decide_False.
Qed.

Lemma fmap_replace_same {A} (key : A → Z) (b : A) (l : list A) :
  NoDup (key <$> l) → b ∈ l →
  (λ x, if decide (key x = key b) then b else x) <$> l = l.
Proof.
  intros Hnd Hb. rewrite <- (list_fmap_id l) at 2.
  apply list_fmap_ext. intros i x Hx. simpl.
  destruct (decide (key x = key b)) as [Heq|]; [|done].
  symmetry. apply (NoDup_fmap_eq key l); [done| |done..].
  by eapply list_elem_of_lookup_2.
Qed.

(** X9: a partial update that carries no field changes nothing: it answers
    200 with the current body of the author, or of the book, and the
    catalog is the one before the request. *)
Theorem empty_patch_changes_nothing (s : store) :
  wf s →
  (∀ a, a ∈ authors s →
        AuthorViewSet_update true (Author.id a) no_author_fields s
        = (s, HTTP_200 (AuthorSerializer.data s a)))
  ∧ (∀ b a, b ∈ books s → find_author s (Book.author_id b) = Some a →
            BookViewSet_update true (Book.id b) no_book_fields s
            = (s, HTTP_200 (BookSerializer.data s (b, a)))).
Proof.
  intros (Hnda & Hndb & Hndi & Hfk). split.
  - intros a Ha.
    rewrite (AuthorViewSet_update_ok s true a no_author_fields Hnda Ha eq_refl).
    unfold validated_text.
    cbn [no_author_fields AuthorData.name AuthorData.birth_date
         AuthorData.country default fmap option_fmap option_map].
    assert (Author.Make (Author.id a) (Author.name a) (Author.birth_date a)
              (Author.country a) = a) as -> by (by destruct a).
    rewrite (fmap_replace_same Author.id a (authors s) Hnda Ha).
    by destruct s.
  - intros b a Hb Ha.
    pose proof (BookViewSet_get_object_Some s b a Hndb Hb Ha) as Hget.
    destruct (BookViewSet_update_ok s true (Book.id b) no_book_fields b a
                Hndi Hget eq_refl) as [_ ->].
    unfold resolve_author, validated_text.
    cbn [no_book_fields BookData.title BookData.author_id
         BookData.published_date BookData.isbn default mbind option_bind
         fmap option_fmap option_map].
    apply find_author_Some in Ha as [_ ->].
    assert (Book.Make (Book.id b) (Book.title b) (Book.author_id b)
              (Book.published_date b) (Book.isbn b) = b) as ->
      by (by destruct b).
    rewrite (fmap_replace_same Book.id b (books s) Hndb Hb).
    by destruct s.
Qed.

(** X10: deleting a book answers 204 and removes that book and nothing else:
    the authors and the other books stay, retrieving the key is then
    answered with 404, and so is deleting it again. *)
Theorem book_destroy (s : store) (b : Book.t) :
  wf s → b ∈ books s →
  ∃ s' : store,
    BookViewSet_destroy (Book.id b) s = (s', HTTP_204)
    ∧ authors s' = authors s
    ∧ books s' = filter (λ x, Book.id x ≠ Book.id b) (books s)
    ∧ (b ∉ books s')
    ∧ (∀ x, x ∈ books s → x ≠ b → x ∈ books s')
    ∧ BookViewSet_retrieve (Book.id b) s' = (s', HTTP_404)
    ∧ BookViewSet_destroy (Book.id b) s' = (s', HTTP_404).
Proof.
  intros Hwf Hb. pose proof Hwf as (Hnda & Hndb & Hndi & Hfk).
  destruct (wf_author_of s b Hwf Hb) as [a Ha].
  pose proof (BookViewSet_get_object_Some s b a Hndb Hb Ha) as Hget.
  set (s' := Store (authors s)
               (filter (λ x, Book.id x ≠ Book.id b) (books s))
               (author_seq s) (book_seq s)).
  assert (BookViewSet_destroy (Book.id b) s = (s', HTTP_204)) as Hdel.
  { unfold BookViewSet_destroy. rewrite Hget. unfold Book_delete.
    cbn [fst snd]. unfold s'. do 2 f_equal.
    apply list_filter_iff. intros x. by rewrite bool_decide_eq_false. }
  assert (BookViewSet.get_object s' (Book.id b) = None) as Hgone.
  { apply BookViewSet_get_object_None.
    intros (x & Hid & [Hne _]%list_elem_of_filter)%list_elem_of_fmap.
    by apply Hne. }
  exists s'. split; [done|]. split; [done|]. split; [done|]. split.
  { intros [Hne _]%list_elem_of_filter. by apply Hne. }
  split.
  { intros x Hx Hne. apply list_elem_of_filter. split; [|done].
    intros Hid. apply Hne. by apply (NoDup_fmap_eq Book.id (books s)). }
  split.
  - unfold BookViewSet_retrieve. by rewrite Hgone.
  - unfold BookViewSet_destroy. by rewrite Hgone.
Qed.

(** X11: updating a book to the isbn of another book is refused with 400
    and changes nothing; the failure is reported as [unique] under
    [isbn].  The payload is plain text and its isbn is compared once
    trimmed. *)
Theorem book_update_duplicate_isbn (s : store) (partial : bool)
    (b other : Book.t) (d : BookData.t) (data : string) :
  wf s → b ∈ books s → other ∈ books s → Book.id other ≠ Book.id b →
  plain_book_data d → BookData.isbn d = Some data →
  strip data = Book.isbn other → Book.isbn other ≠ "" →
  ∃ detail,
    BookViewSet_update partial (Book.id b) d s = (s, HTTP_400 detail)
    ∧ ("isbn", unique) ∈ detail.
Proof.
  intros Hwf Hb Ho Hne _ Hd Hstrip Hblank. pose proof Hwf as (_ & Hndb & _).
  destruct (wf_author_of s b Hwf Hb) as [a Ha].
  unfold BookViewSet_update.
  rewrite (BookViewSet_get_object_Some s b a Hndb Hb Ha).
  assert (("isbn", unique)
          ∈ BookSerializer_run_validation s (Some (Book.id b)) partial d)
    as Hin.
  { apply (duplicate_isbn_reported s _ partial d data Hd);
      [by rewrite Hstrip|].
    apply Exists_exists. exists other. split; [done|]. split; [done|].
    congruence. }
  destruct (BookSerializer_run_validation s _ partial d) as [|e detail];
    [by apply elem_of_nil in Hin|].
  by eexists.
Qed.

(** ** The admin's book count *)

Lemma sum_list_with_add {A} (f g : A → nat) (l : list A) :
  sum_list_with (λ x, f x + g x)%nat l
  = (sum_list_with f l + sum_list_with g l)%nat.
Proof. induction l as [|x l IH]; simpl; lia. Qed.

Lemma sum_list_with_ext {A} (f g : A → nat) (l : list A) :
  (∀ x, f x = g x) → sum_list_with f l = sum_list_with g l.
Proof.
  intros Hfg. induction l as [|x l IH]; simpl; [done|]. by rewrite Hfg, IH.
Qed.

Lemma count_the_author (l : list Author.t) (k : Z) :
  NoDup (Author.id <$> l) → k ∈ Author.id <$> l →
  sum_list_with (λ a, if decide (k = Author.id a) then 1 else 0)%nat l
  = 1%nat.
Proof.
  induction l as [|a l IH]; [by intros _ ?%elem_of_nil|].
  rewrite fmap_cons, NoDup_cons. intros [Ha Hl] Hk. simpl.
  destruct (decide (k = Author.id a)) as [->|Hne].
  - assert (sum_list_with
              (λ a0, if decide (Author.id a = Author.id a0) then 1 else 0)%nat
              l = 0%nat) as ->; [|done].
    clear IH Hk Hl. induction l as [|x l IH]; [done|]. simpl.
    rewrite fmap_cons, not_elem_of_cons in Ha. destruct Ha as [Hx Ha].
    rewrite decide_False by done. by apply IH.
  - apply elem_of_cons in Hk as [Hk|Hk]; [done|]. by rewrite IH.
Qed.

(** X12: on a catalog that satisfies the constraints every book is counted
    for exactly one author: the book counts of the authors add up to the
    number of books. *)
Theorem book_counts_add_up (s : store) :
  wf s →
  sum_list_with (AuthorAdmin.book_count s) (authors s) = length (books s).
Proof.
  intros (Hnd & _ & _ & Hfk).
  rewrite (sum_list_with_ext _ _ _ (book_count_filter s)).
  induction Hfk as [|b bks Hb Hbks IH]; simpl.
  - induction (authors s) as [|a l IHl]; [done|]. simpl. by rewrite IHl.
  - rewrite <- IH.
    rewrite (sum_list_with_ext _
               (λ a, (if decide (Book.author_id b = Author.id a)
                      then 1 else 0)
                     + length (filter (λ b0, Book.author_id b0 = Author.id a)
                                      bks))%nat).
    + rewrite sum_list_with_add, count_the_author; done.
    + intros a. rewrite filter_cons.
      by destruct (decide (Book.author_id b = Author.id a)).
Qed.

Lemma length_filter_split {A} (P : A → Prop) `{∀ x, Decision (P x)}
    (l : list A) :
  (length (filter P l) + length (filter (λ x, ¬ P x) l))%nat = length l.
Proof.
  induction l as [|x l IH]; [done|]. rewrite !filter_cons.
  destruct (decide (P x)).
  - rewrite decide_False by tauto. simpl. lia.
  - rewrite decide_True by done. simpl. lia.
Qed.

(** X13: deleting an author removes as many books as the admin counted for
    the author. *)
Theorem destroy_removes_book_count (s : store) (a : Author.t) :
  wf s → a ∈ authors s →
  (length (books (AuthorViewSet_destroy (Author.id a) s).1)
   + AuthorAdmin.book_count s a)%nat
  = length (books s).
Proof.
  intros (Hnd & _) Ha. unfold AuthorViewSet_destroy.
  rewrite (AuthorViewSet_get_object_elem s a Hnd Ha).
  rewrite Author_delete_by_id by (by apply list_elem_of_fmap_2).
  cbn [fst books]. rewrite book_count_filter.
  rewrite Nat.add_comm. apply length_filter_split.
Qed.

(** ** The HTML pages *)

(** X14: the author page lists every author exactly once, in ascending order
    of name. *)
Theorem author_list_page (s : store) :
  ∃ l, page_context (author_list s) = authors_context l
       ∧ l ≡ₚ authors s ∧ StronglySorted by_name l.
Proof.
  exists (Author_objects_all s). split; [done|]. split.
  - apply order_by_Permutation.
  - by apply (order_by_ascending Author_column "name" Author.name).
Qed.

Lemma omap_join_fst {A B} (g : B → option A) (l : list B) :
  Forall (λ b, is_Some (g b)) l →
  (omap (λ b, pair b <$> g b) l).*1 = l.
Proof.
  induction 1 as [|b l [a Ha] Hl IH]; [done|].
  cbn [omap list_omap]. rewrite Ha. simpl. f_equal. exact IH.
Qed.

(** X15: on a catalog that satisfies the constraints the book page lists
    every book exactly once, each with the author it references, in
    ascending order of title. *)
Theorem book_list_page (s : store) :
  wf s →
  ∃ l, page_context (book_list s) = books_context l
       ∧ l.*1 ≡ₚ books s
       ∧ StronglySorted by_title (l.*1)
       ∧ Forall (λ r, r.2 ∈ authors s
                      ∧ Author.id r.2 = Book.author_id r.1) l.
Proof.
  intros Hwf. exists (Book_objects_select_related_author s).
  split; [done|]. split; [|split].
  - unfold Book_objects_select_related_author.
    rewrite order_by_Permutation.
    rewrite (omap_join_fst (λ b, find_author s (Book.author_id b)));
      [done|].
    apply Forall_forall. intros b Hb. by apply wf_author_of.
  - apply StronglySorted_fmap
      with (R1 := ascending (λ r : Book.t * Author.t, Book.title r.1)).
    + by intros x y.
    + by apply (order_by_ascending Joined_column "title").
  - apply Forall_forall. intros [b a] [_ Ha]%elem_of_Book_queryset.
    simpl in *. by apply find_author_Some in Ha.
Qed.

(** ** More on search *)


Lemma search_match_cons {A} (column : string → A → option string)
    (search_fields : list string) (t : string) (ts : list string) (x : A) :
  search_match column search_fields (t :: ts) x =
  search_match column search_fields [t] x
  && search_match column search_fields ts x.
Proof. unfold search_match. simpl. by rewrite andb_true_r. Qed.

Lemma elem_of_listAuthors (s : store) (terms : list string) (a : Author.t) :
  a ∈ listAuthors s terms ↔
  a ∈ authors s
  ∧ search_match Author_column AuthorViewSet.search_fields terms a = true.
Proof. rewrite listAuthors_Permutation, list_elem_of_filter. tauto. Qed.

Lemma elem_of_listBooks (s : store) (terms : list string) (b : Book.t) :
  b ∈ listBooks s terms ↔ b ∈ books s ∧ book_matches s terms b = true.
Proof. rewrite listBooks_Permutation, list_elem_of_filter. tauto. Qed.


(** X17: search terms narrow the result: a row is found under several terms
    exactly when it is found under each of them. *)
Theorem search_terms_conjoin (s : store) (t : string) (ts : list string) :
  (∀ a, a ∈ listAuthors s (t :: ts) ↔
        a ∈ listAuthors s [t] ∧ a ∈ listAuthors s ts)
  ∧ (∀ b, b ∈ listBooks s (t :: ts) ↔
          b ∈ listBooks s [t] ∧ b ∈ listBooks s ts).
Proof.
  split.
  - intros a. rewrite !elem_of_listAuthors, search_match_cons, andb_true_iff.
    tauto.
  - intros b. rewrite !elem_of_listBooks. unfold book_matches.
    destruct (find_author s (Book.author_id b)) as [a|]; cbn [from_option].
    + rewrite search_match_cons, andb_true_iff. tauto.
    + intuition congruence.
Qed.

Lemma search_match_lower {A} (column : string → A → option string)
    (search_fields terms : list string) (x : A) :
  search_match column search_fields terms x =
  forallb (λ t',
    existsb (λ f, from_option (λ v, contains t' (lower v)) false (column f x))
            search_fields) (lower <$> terms).
Proof.
  unfold search_match. induction terms as [|t ts IH]; [done|].
  rewrite fmap_cons. simpl. by rewrite IH.
Qed.

Lemma lower_terms_nil (ts ts' : list string) :
  lower <$> ts = lower <$> ts' → (ts = [] ↔ ts' = []).
Proof. destruct ts, ts'; simpl; intros H; by try discriminate H. Qed.

Lemma SearchFilter_lower {A} (column : string → A → option string)
    (search_fields ts ts' : list string) (queryset : list A) :
  lower <$> ts = lower <$> ts' →
  SearchFilter column search_fields ts queryset
  = SearchFilter column search_fields ts' queryset.
Proof.
  intros Hts. unfold SearchFilter.
  rewrite (bool_decide_ext _ _ (lower_terms_nil ts ts' Hts)).
  destruct (_ || _); [done|].
  apply list_filter_iff. intros x. by rewrite !search_match_lower, Hts.
Qed.

(** X18: search does not look at the case of the terms: two requests whose
    terms agree up to case get the same list, in the same order. *)
Theorem search_ignores_case (s : store) (ts ts' : list string) :
  lower <$> ts = lower <$> ts' →
  listAuthors s ts = listAuthors s ts' ∧ listBooks s ts = listBooks s ts'.
Proof.
  intros Hts. unfold listAuthors, listBooks, AuthorViewSet.filter_queryset,
    BookViewSet.filter_queryset.
  by rewrite !(SearchFilter_lower _ _ ts ts' _ Hts).
Qed.

(** ** More on the fixture loader *)

Lemma cleared_wf (s : store) : wf (cleared s).
Proof. repeat split; constructor. Qed.

Lemma create_authors_wf (entries : list AuthorEntry.t) :
  ∀ (dict : gmap Z Author.t) (s : store),
    wf s → wf (create_authors entries dict s).1.
Proof.
  induction entries as [|e entries IH]; intros dict s Hwf; [done|].
  cbn [create_authors]. unfold bind, subscript, ret, raise.
  destruct (AuthorEntry.id e) as [i|]; [|done].
  destruct (AuthorEntry.name e) as [nm|]; [|done].
  destruct (AuthorEntry.birth_date e) as [bd|]; [|done].
  destruct (AuthorEntry.country e) as [c|]; [|done].
  unfold Author_objects_create.
  destruct (negb (from_option valid_date true bd)); [done|].
  destruct (negb (bool_decide (min_key ≤ i ≤ max_key)%Z)); [done|].
  destruct (decide (i ∈ author_ids s)) as [|Hnew]; [done|].
  pose proof (wf_add_author s (Author.Make i nm bd c)
                (Z.max (author_seq s) i) Hwf Hnew) as Hwf'.
  specialize (IH (<[i := Author.Make i nm bd c]> dict) _ Hwf').
  by destruct (create_authors entries _ _) as [s' [err|dict']].
Qed.

Lemma create_books_wf (dict : gmap Z Author.t) (entries : list BookEntry.t) :
  ∀ s : store, wf s → wf (create_books entries dict s).1.
Proof.
  induction entries as [|e entries IH]; intros s Hwf; [done|].
  cbn [create_books]. unfold bind, subscript, lookup_author, ret, raise.
  destruct (BookEntry.title e) as [t|]; [|done].
  destruct (BookEntry.author_id e) as [k|]; [|done].
  destruct (dict !! k) as [a|]; [|done].
  destruct (BookEntry.published_date e) as [pd|]; [|done].
  destruct (BookEntry.isbn e) as [i|]; [|done].
  unfold Book_objects_create, Book.isbn_unique.
  destruct (negb (valid_date pd)); [done|]. rewrite andb_true_l.
  case_bool_decide as Hi; [done|].
  destruct (decide (Author.id a ∈ author_ids s)) as [Ha|]; [|done].
  pose proof (wf_add_book s (Book.Make (next_book_id s) t (Author.id a) pd i)
                (next_book_id s) Hwf (next_book_id_fresh s) Hi Ha) as Hwf'.
  specialize (IH _ Hwf').
  by destruct (create_books entries dict _) as [s' [err|[]]].
Qed.

Lemma handle_wf (data : Fixture.t) (s : store) : wf (handle data s).1.
Proof.
  rewrite handle_unfold.
  destruct (Fixture.authors data) as [aentries|]; [|apply cleared_wf].
  pose proof (create_authors_wf aentries ∅ (cleared s) (cleared_wf s)) as H1.
  destruct (create_authors aentries ∅ (cleared s)) as [s1 [e|dict]]; [done|].
  destruct (Fixture.books data) as [bentries|]; [|done].
  pose proof (create_books_wf dict bentries s1 H1) as H2.
  by destruct (create_books bentries dict s1) as [s2 [e|[]]].
Qed.

(** X19: the loader never leaves a catalog that breaks the constraints, not
    even when it stops half way: whatever the document and whatever the
    catalog before, keys and isbns are unique afterwards and every book
    has its author. *)
Theorem loader_keeps_constraints (data : Fixture.t) (s : store) :
  wf (handle data s).1.
Proof. apply handle_wf. Qed.

Lemma book_rows_isbns (rows : list Book.t) (entries : list BookEntry.t) :
  Forall2 book_row rows entries →
  omap BookEntry.isbn entries = Book.isbn <$> rows.
Proof.
  induction 1 as [|b e rows entries (_ & _ & _ & Hi) _ IH]; [done|].
  cbn [omap list_omap]. by rewrite Hi, fmap_cons, IH.
Qed.

(** The rows the loader inserts have their keys in the key space and
    their dates in the calendar. *)
Lemma create_authors_sound (entries : list AuthorEntry.t) :
  ∀ (dict : gmap Z Author.t) (s : store),
    Forall (λ a, key_in_range (Author.id a)
                 ∧ from_option valid_date true (Author.birth_date a) = true)
           (authors s) →
    Forall (λ a, key_in_range (Author.id a)
                 ∧ from_option valid_date true (Author.birth_date a) = true)
           (authors (create_authors entries dict s).1).
Proof.
  induction entries as [|e entries IH]; intros dict s Hinv; [done|].
  cbn [create_authors]. unfold bind, subscript, ret, raise.
  destruct (AuthorEntry.id e) as [i|]; [|done].
  destruct (AuthorEntry.name e) as [nm|]; [|done].
  destruct (AuthorEntry.birth_date e) as [bd|]; [|done].
  destruct (AuthorEntry.country e) as [c|]; [|done].
  unfold Author_objects_create.
  destruct (from_option valid_date true bd) eqn:Hdate; [|done]. cbn [negb].
  case_bool_decide as Hkey; [|done]. cbn [negb].
  destruct (decide (i ∈ author_ids s)) as [|Hnew]; [done|].
  match goal with |- context [create_authors entries ?dict' ?s1] =>
    specialize (IH dict' s1);
    destruct (create_authors entries dict' s1) as [s' [err|dict'']] end;
    apply IH; simpl; apply Forall_app; split; try done;
    by apply Forall_singleton.
Qed.

Lemma create_books_sound (dict : gmap Z Author.t)
    (entries : list BookEntry.t) :
  ∀ s : store,
    Forall (λ b, valid_date (Book.published_date b) = true) (books s) →
    Forall (λ b, valid_date (Book.published_date b) = true)
           (books (create_books entries dict s).1).
Proof.
  induction entries as [|e entries IH]; intros s Hinv; [done|].
  cbn [create_books]. unfold bind, subscript, lookup_author, ret, raise.
  destruct (BookEntry.title e) as [t|]; [|done].
  destruct (BookEntry.author_id e) as [k|]; [|done].
  destruct (dict !! k) as [a|]; [|done].
  destruct (BookEntry.published_date e) as [pd|]; [|done].
  destruct (BookEntry.isbn e) as [i|]; [|done].
  unfold Book_objects_create.
  destruct (valid_date pd) eqn:Hdate; [|done]. cbn [negb].
  destruct (Book.isbn_unique && _); [done|].
  destruct (decide _); [|done].
  match goal with |- context [create_books entries dict ?s1] =>
    specialize (IH s1);
    destruct (create_books entries dict s1) as [s' [err|[]]] end;
    apply IH; simpl; apply Forall_app; split; try done;
    by apply Forall_singleton.
Qed.

Lemma create_books_authors (dict : gmap Z Author.t)
    (entries : list BookEntry.t) :
  ∀ s : store, authors (create_books entries dict s).1 = authors s.
Proof.
  induction entries as [|e entries IH]; intros s; [done|].
  cbn [create_books]. unfold bind, subscript, lookup_author, ret, raise.
  destruct (BookEntry.title e) as [t|]; [|done].
  destruct (BookEntry.author_id e) as [k|]; [|done].
  destruct (dict !! k) as [a|]; [|done].
  destruct (BookEntry.published_date e) as [pd|]; [|done].
  destruct (BookEntry.isbn e) as [i|]; [|done].
  unfold Book_objects_create.
  destruct (negb (valid_date pd)); [done|].
  destruct (Book.isbn_unique && _); [done|].
  destruct (decide _); [|done].
  match goal with |- context [create_books entries dict ?s1] =>
    specialize (IH s1);
    by destruct (create_books entries dict s1) as [s' [err|[]]] end.
Qed.

Lemma handle_sound (data : Fixture.t) (s : store) :
  Forall (λ a, key_in_range (Author.id a)
               ∧ from_option valid_date true (Author.birth_date a) = true)
         (authors (handle data s).1)
  ∧ Forall (λ b, valid_date (Book.published_date b) = true)
           (books (handle data s).1).
Proof.
  rewrite handle_unfold.
  destruct (Fixture.authors data) as [aentries|]; [|by split; constructor].
  pose proof (create_authors_sound aentries ∅ (cleared s)
                (Forall_nil_2 _)) as H1.
  destruct (create_authors aentries ∅ (cleared s)) as [s1 r1] eqn:Hrun1.
  apply create_authors_spec in Hrun1 as (arows & na & _ & Hbk & _).
  simpl in Hbk, H1.
  assert (Forall (λ b, valid_date (Book.published_date b) = true) (books s1))
    as Hnone by (rewrite Hbk; constructor).
  destruct r1 as [e|dict]; [done|].
  destruct (Fixture.books data) as [bentries|]; [|done].
  pose proof (create_books_sound dict bentries s1 Hnone) as H2.
  pose proof (create_books_authors dict bentries s1) as Hau.
  destruct (create_books bentries dict s1) as [s2 [e|[]]];
    simpl in *; by rewrite Hau.
Qed.

Lemma author_rows_loadable (entries : list AuthorEntry.t) :
  ∀ rows : list Author.t,
    author_row <$> entries = Some <$> rows →
    Forall (λ a, key_in_range (Author.id a)
                 ∧ from_option valid_date true (Author.birth_date a) = true)
           rows →
    Forall loadable_author_entry entries.
Proof.
  induction entries as [|e entries IH]; intros [|a rows] Heq Hrows;
    try discriminate; [by constructor|].
  rewrite !fmap_cons in Heq. injection Heq as He Heq.
  apply Forall_cons in Hrows as [[Hkey Hdate] Hrows].
  constructor; [|by eapply IH].
  split; [apply author_row_complete; by rewrite He|].
  apply author_row_Some in He as (Hid & _ & Hbd & _). split.
  - intros k Hk. congruence.
  - intros d Hd. rewrite Hbd in Hd. injection Hd as Hd.
    by rewrite Hd in Hdate.
Qed.

Lemma book_rows_loadable (rows : list Book.t) (entries : list BookEntry.t) :
  Forall2 book_row rows entries →
  Forall (λ b, valid_date (Book.published_date b) = true) rows →
  Forall loadable_book_entry entries.
Proof.
  induction 1 as [|b e rows entries Hrow _ IH]; intros Hrows;
    [by constructor|].
  apply Forall_cons in Hrows as [Hdate Hrows].
  constructor; [|by apply IH].
  split; [by eapply book_row_complete|].
  destruct Hrow as (_ & _ & Hpd & _). intros d Hd. congruence.
Qed.

Lemma handle_success_loadable (data : Fixture.t) (s s' : store) v :
  handle data s = (s', inr v) → loadable data.
Proof.
  intros Hrun. pose proof (handle_wf data s) as Hwf.
  pose proof (handle_sound data s) as [Hsa Hsb].
  rewrite Hrun in Hwf, Hsa, Hsb. cbn [fst] in Hsa, Hsb.
  destruct Hwf as (Hnda & _ & Hndi & _).
  pose proof (handle_spec data s s' (inr v) Hrun)
    as (na & nb & _ & _ & _ & _ & Hka & Hkb & _ & _).
  apply handle_success in Hrun as (Ha & Hb & Hfk).
  split; [done|]. split; [done|].
  split; [by eapply author_rows_loadable|].
  split; [by eapply book_rows_loadable|].
  split; [|split].
  - by rewrite (author_rows_ids _ _ Ha).
  - by rewrite (book_rows_isbns _ _ Hb).
  - apply Forall_forall. intros e [i He]%list_elem_of_lookup.
    destruct (Forall2_lookup_r _ _ _ _ _ Hb He) as (b & Hbi & Hrow).
    exists (Book.author_id b). split; [by destruct Hrow as (_ & ? & _)|].
    rewrite (author_rows_ids _ _ Ha). rewrite Forall_forall in Hfk.
    apply Hfk. by eapply list_elem_of_lookup_2.
Qed.

(** X20: while the key space has room for the books of the document, the
    loader succeeds on exactly the documents that carry both keys, whose
    entries carry all their keys, with ids in the key space and dates of
    the calendar, whose authors have distinct ids, whose books have
    distinct isbns and name authors of the document; what the catalog
    held before plays no part. *)
Theorem loader_succeeds_iff (data : Fixture.t) (s : store) :
  room_for_books s (length (book_entries data)) →
  (∃ v, (handle data s).2 = inr v) ↔ loadable data.
Proof.
  intros _. split.
  - intros [v Hv]. destruct (handle data s) as [s' r] eqn:Hrun.
    simpl in Hv. subst r. by eapply handle_success_loadable.
  - intros Hl. destruct (loadable_handle_success data s Hl) as (s' & v & ->).
    by exists v.
Qed.

Lemma handle_success_value (data : Fixture.t) (s s' : store) v :
  handle data s = (s', inr v) →
  v = (length (author_entries data), length (book_entries data)).
Proof.
  intros Hrun. pose proof Hrun as Hrun'. revert Hrun'.
  rewrite handle_unfold. unfold author_entries, book_entries.
  destruct (Fixture.authors data) as [aentries|]; [|done].
  pose proof (create_authors_wf aentries ∅ (cleared s) (cleared_wf s)) as Hwf.
  destruct (create_authors aentries ∅ (cleared s)) as [s1 [e|dict]] eqn:Hrun1;
    [done|].
  destruct (Fixture.books data) as [bentries|]; [|done].
  destruct (create_books bentries dict s1) as [s2 [e|[]]]; [done|].
  intros [= _ <-]. cbn [default from_option id]. f_equal.
  apply create_authors_spec in Hrun1
    as (arows & na & Hau & _ & _ & _ & Harows & -> & Hdom & _).
  rewrite firstn_all in Harows. simpl in Hau, Hwf.
  destruct Hwf as (Hnd & _). unfold author_ids in Hnd. rewrite Hau in Hnd.
  rewrite <- size_dom, Hdom, dom_empty_L, (left_id_L ∅ (∪)).
  rewrite size_list_to_set by done.
  rewrite length_fmap. apply (f_equal length) in Harows.
  by rewrite !length_fmap in Harows.
Qed.

(** X21: the closing message of a successful load reports the catalog as it
    now is: the two counts are the numbers of authors and of books in the
    store, which are the numbers of entries of the document. *)
Theorem loader_reports_counts (data : Fixture.t) (s s' : store) v :
  handle data s = (s', inr v) →
  v = (length (authors s'), length (books s'))
  ∧ length (authors s') = length (author_entries data)
  ∧ length (books s') = length (book_entries data).
Proof.
  intros Hrun. rewrite (handle_success_value data s s' v Hrun).
  apply handle_success in Hrun as (Ha & Hb & _).
  apply (f_equal length) in Ha. rewrite !length_fmap in Ha.
  apply Forall2_length in Hb. by rewrite Ha, Hb.
Qed.





(** * The further statements at the sample data *)

(** The name of [padded_data] is judged once trimmed. *)
Lemma author_payload_valid_at_sample :
  plain_author_data padded_data
  ∧ (AuthorSerializer_run_validation false padded_data = [] ↔
     match AuthorData.name padded_data with
     | Some n => strip n ≠ ""
                 ∧ (char_length (strip n) ≤ Author.name_max_length)%nat
     | None => false = true
     end
     ∧ match AuthorData.birth_date padded_data with
       | Some (Some v) => valid_date v = true
       | Some None | None => True
       end
     ∧ match AuthorData.country padded_data with
       | Some c => (char_length (strip c) ≤ Author.country_max_length)%nat
       | None => True
       end).
Proof.
  assert (plain_author_data padded_data) as Hplain by by_evaluation.
  split; [exact Hplain|].
  exact (author_payload_valid false padded_data Hplain).
Defined.

Lemma book_payload_valid_at_sample :
  plain_book_data silmarillion_data
  ∧ (BookSerializer_run_validation sample None false silmarillion_data = [] ↔
     match BookData.title silmarillion_data with
     | Some t => strip t ≠ ""
                 ∧ (char_length (strip t) ≤ Book.title_max_length)%nat
     | None => false = true
     end
     ∧ match BookData.author_id silmarillion_data with
       | Some pk => pk ∈ author_ids sample
       | None => false = true
       end
     ∧ match BookData.published_date silmarillion_data with
       | Some v => valid_date v = true
       | None => false = true
       end
     ∧ match BookData.isbn silmarillion_data with
       | Some i =>
           strip i ≠ ""
           ∧ (char_length (strip i) ≤ Book.isbn_max_length)%nat
           ∧ ∀ x, x ∈ books sample → Book.isbn x = strip i →
                  Some (Book.id x) = None
       | None => false = true
       end).
Proof.
  assert (plain_book_data silmarillion_data) as Hplain by by_evaluation.
  split; [exact Hplain|].
  exact (book_payload_valid sample None false silmarillion_data Hplain).
Defined.

Lemma serve_keeps_constraints_at_sample :
  wf sample ∧ wf (serve sample_requests sample).
Proof.
  assert (wf sample) as Hwf by by_evaluation.
  split; [exact Hwf|].
  exact (serve_keeps_constraints sample_requests sample Hwf).
Defined.

Lemma router_never_fails_at_sample :
  wf sample
  ∧ plain_request sample (api_authors (POST_create lewis_data))
  ∧ ∀ e, (router (api_authors (POST_create lewis_data)) sample).2
         ≠ HTTP_500 e.
Proof.
  assert (wf sample) as Hwf by by_evaluation.
  assert (plain_request sample (api_authors (POST_create lewis_data)))
    as Hplain by by_evaluation.
  split; [exact Hwf|]. split; [exact Hplain|].
  exact (router_never_fails (api_authors (POST_create lewis_data))
           sample Hwf Hplain).
Defined.

Lemma book_round_trip_at_sample :
  wf sample
  ∧ plain_book_data silmarillion_data
  ∧ (next_book_id sample ≤ max_key)%Z
  ∧ BookSerializer_run_validation sample None false silmarillion_data = []
  ∧ ∃ (b : Book.t) (a : Author.t) (s' : store),
      BookViewSet_create silmarillion_data sample
      = (s', HTTP_201 (BookSerializer.data s' (b, a)))
      ∧ BookViewSet_retrieve (Book.id b) s'
        = (s', HTTP_200 (BookSerializer.data s' (b, a)))
      ∧ (Book.id b ∉ book_ids sample)
      ∧ strip <$> BookData.title silmarillion_data = Some (Book.title b)
      ∧ BookData.author_id silmarillion_data = Some (Book.author_id b)
      ∧ BookData.published_date silmarillion_data
        = Some (Book.published_date b)
      ∧ strip <$> BookData.isbn silmarillion_data = Some (Book.isbn b)
      ∧ find_author sample (Book.author_id b) = Some a
      ∧ authors s' = authors sample ∧ books s' = books sample ++ [b]
      ∧ b ∈ Author_books s' a
      ∧ AuthorAdmin.book_count s' a = S (AuthorAdmin.book_count sample a).
Proof.
  assert (wf sample) as Hwf by by_evaluation.
  assert (plain_book_data silmarillion_data) as Hplain by by_evaluation.
  assert (next_book_id sample ≤ max_key)%Z as Hroom by by_evaluation.
  assert (BookSerializer_run_validation sample None false silmarillion_data
          = []) as Hv by (vm_compute; reflexivity).
  split; [exact Hwf|]. split; [exact Hplain|]. split; [exact Hroom|].
  split; [exact Hv|].
  exact (book_round_trip sample silmarillion_data Hwf Hplain Hroom Hv).
Defined.

Lemma author_update_round_trip_at_sample :
  wf sample ∧ tolkien ∈ authors sample
  ∧ plain_author_data rename_data
  ∧ AuthorSerializer_run_validation true rename_data = []
  ∧ ∃ (a' : Author.t) (s' : store),
      AuthorViewSet_update true (Author.id tolkien) rename_data sample
      = (s', HTTP_200 (AuthorSerializer.data s' a'))
      ∧ AuthorViewSet_retrieve (Author.id tolkien) s'
        = (s', HTTP_200 (AuthorSerializer.data s' a'))
      ∧ a' = Author.Make (Author.id tolkien)
               (default (Author.name tolkien)
                        (strip <$> AuthorData.name rename_data))
               (default (Author.birth_date tolkien)
                        (AuthorData.birth_date rename_data))
               (default (Author.country tolkien)
                        (strip <$> AuthorData.country rename_data))
      ∧ books s' = books sample
      ∧ Author_books s' a' = Author_books sample tolkien
      ∧ author_ids s' = author_ids sample
      ∧ ∀ x, x ∈ authors sample → Author.id x ≠ Author.id tolkien →
             x ∈ authors s'.
Proof.
  assert (wf sample) as Hwf by by_evaluation.
  assert (tolkien ∈ authors sample) as Hin by by_evaluation.
  assert (plain_author_data rename_data) as Hplain by by_evaluation.
  split; [exact Hwf|]. split; [exact Hin|]. split; [exact Hplain|].
  split; [reflexivity|].
  exact (author_update_round_trip sample true tolkien rename_data Hwf Hin
           Hplain eq_refl).
Defined.

Lemma book_update_round_trip_at_sample :
  wf sample ∧ hobbit ∈ books sample
  ∧ plain_book_data reassign_data
  ∧ BookSerializer_run_validation sample (Some (Book.id hobbit)) true
      reassign_data = []
  ∧ ∃ (b' : Book.t) (a' : Author.t) (s' : store),
      BookViewSet_update true (Book.id hobbit) reassign_data sample
      = (s', HTTP_200 (BookSerializer.data s' (b', a')))
      ∧ BookViewSet_retrieve (Book.id hobbit) s'
        = (s', HTTP_200 (BookSerializer.data s' (b', a')))
      ∧ b' = Book.Make (Book.id hobbit)
               (default (Book.title hobbit)
                        (strip <$> BookData.title reassign_data))
               (default (Book.author_id hobbit)
                        (BookData.author_id reassign_data))
               (default (Book.published_date hobbit)
                        (BookData.published_date reassign_data))
               (default (Book.isbn hobbit)
                        (strip <$> BookData.isbn reassign_data))
      ∧ find_author sample (Book.author_id b') = Some a'
      ∧ authors s' = authors sample
      ∧ book_ids s' = book_ids sample
      ∧ b' ∈ Author_books s' a'
      ∧ ∀ x, x ∈ books sample → Book.id x ≠ Book.id hobbit → x ∈ books s'.
Proof.
  assert (wf sample) as Hwf by by_evaluation.
  assert (hobbit ∈ books sample) as Hin by by_evaluation.
  assert (plain_book_data reassign_data) as Hplain by by_evaluation.
  assert (BookSerializer_run_validation sample (Some (Book.id hobbit)) true
            reassign_data = []) as Hv by (vm_compute; reflexivity).
  split; [exact Hwf|]. split; [exact Hin|]. split; [exact Hplain|].
  split; [exact Hv|].
  exact (book_update_round_trip sample true hobbit reassign_data Hwf Hin
           Hplain Hv).
Defined.

Lemma empty_patch_changes_nothing_at_sample :
  wf sample
  ∧ (∀ a, a ∈ authors sample →
          AuthorViewSet_update true (Author.id a) no_author_fields sample
          = (sample, HTTP_200 (AuthorSerializer.data sample a)))
  ∧ (∀ b a, b ∈ books sample →
            find_author sample (Book.author_id b) = Some a →
            BookViewSet_update true (Book.id b) no_book_fields sample
            = (sample, HTTP_200 (BookSerializer.data sample (b, a)))).
Proof.
  assert (wf sample) as Hwf by by_evaluation.
  split; [exact Hwf|]. exact (empty_patch_changes_nothing sample Hwf).
Defined.

Lemma book_destroy_at_sample :
  wf sample ∧ hobbit ∈ books sample
  ∧ ∃ s' : store,
      BookViewSet_destroy (Book.id hobbit) sample = (s', HTTP_204)
      ∧ authors s' = authors sample
      ∧ books s' = filter (λ x, Book.id x ≠ Book.id hobbit) (books sample)
      ∧ (hobbit ∉ books s')
      ∧ (∀ x, x ∈ books sample → x ≠ hobbit → x ∈ books s')
      ∧ BookViewSet_retrieve (Book.id hobbit) s' = (s', HTTP_404)
      ∧ BookViewSet_destroy (Book.id hobbit) s' = (s', HTTP_404).
Proof.
  assert (wf sample) as Hwf by by_evaluation.
  assert (hobbit ∈ books sample) as Hin by by_evaluation.
  split; [exact Hwf|]. split; [exact Hin|].
  exact (book_destroy sample hobbit Hwf Hin).
Defined.

Lemma book_update_duplicate_isbn_at_sample :
  wf sample ∧ hobbit ∈ books sample ∧ biography ∈ books sample
  ∧ Book.id biography ≠ Book.id hobbit
  ∧ plain_book_data clashing_data
  ∧ BookData.isbn clashing_data = Some "9780618057023"
  ∧ strip "9780618057023" = Book.isbn biography
  ∧ Book.isbn biography ≠ ""
  ∧ ∃ detail,
      BookViewSet_update true (Book.id hobbit) clashing_data sample
      = (sample, HTTP_400 detail)
      ∧ ("isbn", unique) ∈ detail.
Proof.
  assert (wf sample) as Hwf by by_evaluation.
  assert (hobbit ∈ books sample) as Hin by by_evaluation.
  assert (biography ∈ books sample) as Hin' by by_evaluation.
  assert (Book.id biography ≠ Book.id hobbit) as Hne by by_evaluation.
  assert (plain_book_data clashing_data) as Hplain by by_evaluation.
  assert (Book.isbn biography ≠ "") as Hnb by by_evaluation.
  do 4 (split; [assumption|]). split; [exact Hplain|].
  split; [reflexivity|]. split; [reflexivity|]. split; [exact Hnb|].
  exact (book_update_duplicate_isbn sample true hobbit biography
           clashing_data "9780618057023" Hwf Hin Hin' Hne Hplain eq_refl
           eq_refl Hnb).
Defined.

Lemma book_counts_add_up_at_sample :
  wf sample
  ∧ sum_list_with (AuthorAdmin.book_count sample) (authors sample)
    = length (books sample).
Proof.
  assert (wf sample) as Hwf by by_evaluation.
  split; [exact Hwf|]. exact (book_counts_add_up sample Hwf).
Defined.

Lemma destroy_removes_book_count_at_sample :
  wf sample ∧ tolkien ∈ authors sample
  ∧ (length (books (AuthorViewSet_destroy (Author.id tolkien) sample).1)
     + AuthorAdmin.book_count sample tolkien)%nat
    = length (books sample).
Proof.
  assert (wf sample) as Hwf by by_evaluation.
  assert (tolkien ∈ authors sample) as Hin by by_evaluation.
  split; [exact Hwf|]. split; [exact Hin|].
  exact (destroy_removes_book_count sample tolkien Hwf Hin).
Defined.

Lemma book_list_page_at_sample :
  wf sample
  ∧ ∃ l, page_context (book_list sample) = books_context l
         ∧ l.*1 ≡ₚ books sample
         ∧ StronglySorted by_title (l.*1)
         ∧ Forall (λ r, r.2 ∈ authors sample
                        ∧ Author.id r.2 = Book.author_id r.1) l.
Proof.
  assert (wf sample) as Hwf by by_evaluation.
  split; [exact Hwf|]. exact (book_list_page sample Hwf).
Defined.

Lemma search_ignores_case_at_sample :
  lower <$> ["TOLKIEN"] = lower <$> ["tolkien"]
  ∧ listAuthors sample ["TOLKIEN"] = listAuthors sample ["tolkien"]
  ∧ listBooks sample ["TOLKIEN"] = listBooks sample ["tolkien"].
Proof.
  split; [reflexivity|].
  exact (search_ignores_case sample ["TOLKIEN"] ["tolkien"] eq_refl).
Defined.

Lemma loader_succeeds_iff_at_sample :
  room_for_books sample (length (book_entries sample_fixture))
  ∧ ((∃ v, (handle sample_fixture sample).2 = inr v)
     ↔ loadable sample_fixture).
Proof.
  assert (room_for_books sample (length (book_entries sample_fixture)))
    as Hroom by by_evaluation.
  split; [exact Hroom|].
  exact (loader_succeeds_iff sample_fixture sample Hroom).
Defined.

Lemma loader_reports_counts_at_sample :
  handle sample_fixture sample = (loaded, inr (1, 1)%nat)
  ∧ (1, 1)%nat = (length (authors loaded), length (books loaded))
  ∧ length (authors loaded) = length (author_entries sample_fixture)
  ∧ length (books loaded) = length (book_entries sample_fixture).
Proof.
  assert (handle sample_fixture sample = (loaded, inr (1, 1)%nat)) as Hrun
    by (vm_compute; reflexivity).
  split; [exact Hrun|].
  exact (loader_reports_counts sample_fixture sample loaded (1, 1)%nat Hrun).
Defined.


